(** * csc-demo: the seeding engine, the persistent store and the city overlay

    A shallow embedding of [js/app.js].  The browser is the environment: the
    IndexedDB database, the network and the document are fields of an
    explicit [World]; an [async] function is a computation over that world
    which returns, throws, or stays pending for ever, and which records the
    calls it makes to its collaborators in a log. *)

From Stdlib Require Import Ascii String.
From stdpp Require Import base option list gmap strings pretty.

Open Scope string_scope.
Open Scope list_scope.
Open Scope Z_scope.
Set Warnings "-register-all".

(** ** Values *)

(** What [response.json()] can produce.  Numbers are the integers the dataset
    uses for identifiers. *)
Inductive json : Type :=
  | JNull
  | JBool (b : bool)
  | JNum (n : Z)
  | JStr (s : string)
  | JArr (items : list json)
  | JObj (fields : list (string * json)).

(** What a property read can produce: nothing, a parsed value, or a member
    inherited from [Object.prototype]. *)
Inductive jsval : Type :=
  | VUndefined
  | VJson (j : json)
  | VNative (name : string).

(** The arguments of the navigation entry points: [@param {number|string}]. *)
Inductive Arg : Type :=
  | ANum (n : Z)
  | AStr (s : string).

Definition truthy (v : jsval) : bool :=
  match v with
  | VUndefined => false
  | VJson JNull => false
  | VJson (JBool b) => b
  | VJson (JNum n) => negb (n =? 0)
  | VJson (JStr s) => negb (String.eqb s "")
  | VJson (JArr _) => true
  | VJson (JObj _) => true
  | VNative _ => true
  end.

(** Own property of a parsed object; [JSON.parse] keeps the last of
    duplicated names. *)
Fixpoint obj_get (fields : list (string * json)) (k : string) : option json :=
  match fields with
  | [] => None
  | (k', v) :: rest =>
      match obj_get rest k with
      | Some v' => Some v'
      | None => if String.eqb k' k then Some v else None
      end
  end.

(** [c.name] for a data field [name] ([id], [state_id], [region_id], ...):
    [None] is the TypeError of reading a property of [null]. *)
Definition get_field (c : json) (k : string) : option jsval :=
  match c with
  | JNull => None
  | JObj fields =>
      Some (match obj_get fields k with Some v => VJson v | None => VUndefined end)
  | _ => Some VUndefined
  end.

(** [v === n] for a number [n]. *)
Definition strict_eq_num (v : jsval) (n : Z) : bool :=
  match v with
  | VJson (JNum m) => m =? n
  | _ => false
  end.

(** [parseInt(id, 10)] on an integer identifier (fewer than 22 digits, so
    that its decimal rendering has no exponent). *)
Definition parseInt (id : Z) : Z := id.

(** ** Exceptions *)

(** [Error] is [new Error(message)] thrown by the program; [Platform] is an
    exception of the browser (TypeError, SyntaxError, a DOMException), whose
    message text is the engine's and is represented by its name. *)
Inductive exn : Type :=
  | Error (message : string)
  | Platform (name : string).

Definition message (e : exn) : string :=
  match e with
  | Error m => m
  | Platform n => n
  end.

(** ** Configuration *)

Definition DB_VERSION : Z := 2.
Definition COLLECTIONS : list string :=
  ["regions"; "subregions"; "countries"; "states"].
Definition CONTRIBUTIONS_BASE : string :=
  "https://raw.githubusercontent.com/dr5hn/countries-states-cities-database/master/contributions/".

(** ** The persistent store *)

Record ObjectStore : Type := mkStore {
  indexNames : list string;
  records : list json
}.

(** ** The document *)

(** The content of a column body ([.regions-tb], ..., [.cities-tb]). *)
Inductive Rows : Type :=
  | Authored
  | SelectAnItem
  | LoadingCities
  | ErrorLoadingCities
  | NoneFound (type : string)
  | DataRows (type : string) (items : list json).

(** An element that the page lacks is an absent key or [None]. *)
Record DOM : Type := mkDOM {
  progressWidth : option Z;
  ariaValueNow : option Z;
  textContent : gmap string string;
  tbody : gmap string Rows;
  loadingOverlay : option bool
}.

Record Selections : Type := mkSel {
  region : option Z;
  subregion : option Z;
  country : option (Z * string);
  state : option Z
}.

(** ** The world *)

(** [idb] is the browser's database named [DB_NAME] (absent, or a version and
    its object stores); [db] tells whether the global handle is set. *)
Record World : Type := mkWorld {
  idb : option (Z * gmap string ObjectStore);
  db : bool;
  citiesCache : gmap string json;
  currentSelections : Selections;
  dom : DOM;
  location_search : string
}.

Inductive Response : Type :=
  | NetworkError
  | HTTP (status : Z) (body : option json).

Record Env : Type := mkEnv {
  net : string → Response;
  storageAllowed : bool
}.

(** ** Calls observed by the collaborators *)

Inductive Event : Type :=
  | EProgress (percent : Z) (status : string)
  | EDeleteDatabase
  | EOpen
  | ECount (storeName : string)
  | EFetch (url : string)
  | EReadWrite (storeName : string)
  | EAdd (storeName : string) (item : json)
  | EGetAll (storeName : string)
  | EGetFromIndex (storeName indexName : string) (value : Z)
  | ERender (type : string) (items : list json)
  | EClearColumn (type : string)
  | ESetSearch (search : string)
  | EConsoleError (context : string).

(** ** Computations *)

Inductive Result (A : Type) : Type :=
  | Returns (a : A) (w : World) (log : list Event)
  | Throws (e : exn) (w : World) (log : list Event)
  | Pending (w : World) (log : list Event).
Arguments Returns {A} a w log.
Arguments Throws {A} e w log.
Arguments Pending {A} w log.

Definition M (A : Type) : Type := World → Result A.

Definition log_of {A} (r : Result A) : list Event :=
  match r with
  | Returns _ _ l | Throws _ _ l | Pending _ l => l
  end.

Definition world_of {A} (r : Result A) : World :=
  match r with
  | Returns _ w _ | Throws _ w _ | Pending w _ => w
  end.

Definition prepend {A} (l : list Event) (r : Result A) : Result A :=
  match r with
  | Returns a w l' => Returns a w (l ++ l')
  | Throws e w l' => Throws e w (l ++ l')
  | Pending w l' => Pending w (l ++ l')
  end.

Definition ret {A} (a : A) : M A := λ w, Returns a w [].

Definition bind {A B} (f : A → M B) (m : M A) : M B :=
  λ w, match m w with
       | Returns a w1 l1 => prepend l1 (f a w1)
       | Throws e w1 l1 => Throws e w1 l1
       | Pending w1 l1 => Pending w1 l1
       end.

(** [x ← m; k] awaits [m] and continues with [k]; [m;; k] drops the value. *)
#[global] Instance M_ret : MRet M := @ret.
#[global] Instance M_bind : MBind M := @bind.

Definition throw {A} (e : exn) : M A := λ w, Throws e w [].
Definition never {A} : M A := λ w, Pending w [].
Definition emit (ev : Event) : M unit := λ w, Returns tt w [ev].
Definition get : M World := λ w, Returns w w [].
Definition modify (f : World → World) : M unit := λ w, Returns tt (f w) [].

(** [try { m } catch (error) { h error }] *)
Definition try_catch {A} (m : M A) (h : exn → M A) : M A :=
  λ w, match m w with
       | Throws e w1 l1 => prepend l1 (h e w1)
       | r => r
       end.

Definition when (b : bool) (m : M unit) : M unit := if b then m else ret tt.

(** ** World updates *)

Definition set_idb (v : option (Z * gmap string ObjectStore)) (w : World) : World :=
  mkWorld v (db w) (citiesCache w) (currentSelections w) (dom w) (location_search w).
Definition set_db (b : bool) (w : World) : World :=
  mkWorld (idb w) b (citiesCache w) (currentSelections w) (dom w) (location_search w).
Definition set_citiesCache (c : gmap string json) (w : World) : World :=
  mkWorld (idb w) (db w) c (currentSelections w) (dom w) (location_search w).
Definition set_currentSelections (s : Selections) (w : World) : World :=
  mkWorld (idb w) (db w) (citiesCache w) s (dom w) (location_search w).
Definition set_dom (d : DOM) (w : World) : World :=
  mkWorld (idb w) (db w) (citiesCache w) (currentSelections w) d (location_search w).
Definition set_location_search (s : string) (w : World) : World :=
  mkWorld (idb w) (db w) (citiesCache w) (currentSelections w) (dom w) s.

(** [el.textContent = text] when [document.getElementById(id)] exists. *)
Definition set_text (id text : string) (d : DOM) : DOM :=
  match textContent d !! id with
  | Some _ =>
      mkDOM (progressWidth d) (ariaValueNow d) (<[id := text]> (textContent d))
            (tbody d) (loadingOverlay d)
  | None => d
  end.

(** [tb.innerHTML = rows] when [document.querySelector('.' + cls)] exists. *)
Definition set_rows (cls : string) (rows : Rows) (d : DOM) : DOM :=
  match tbody d !! cls with
  | Some _ =>
      mkDOM (progressWidth d) (ariaValueNow d) (textContent d)
            (<[cls := rows]> (tbody d)) (loadingOverlay d)
  | None => d
  end.

Definition set_progress (percent : Z) (d : DOM) : DOM :=
  mkDOM (match progressWidth d with Some _ => Some percent | None => None end)
        (match ariaValueNow d with Some _ => Some percent | None => None end)
        (textContent d) (tbody d) (loadingOverlay d).

(** ** Utility functions *)

Definition updateLoadingProgress (percent : Z) (status : string) : M unit :=
  emit (EProgress percent status);;
  modify (λ w, set_dom (set_text "loadingStatus" status (set_progress percent (dom w))) w).

(** [count.toLocaleString()]: the digits, without the locale's grouping. *)
Definition toLocaleString (n : Z) : string := pretty n.

Definition updateCount (type : string) (count : Z) : M unit :=
  modify (λ w, set_dom (set_text (type +:+ "-count") (toLocaleString count) (dom w)) w).

(** ** IndexedDB functions *)

Definition deleteDatabase (env : Env) : M unit :=
  emit EDeleteDatabase;;
  if storageAllowed env then modify (set_idb None)
  else throw (Platform "UnknownError").

(** The indexes that the [switch] of [onupgradeneeded] declares. *)
Definition declared_indexes (collectionName : string) : list string :=
  if String.eqb collectionName "subregions" then ["region_id"]
  else if String.eqb collectionName "countries" then ["subregion_id"; "iso2"]
  else if String.eqb collectionName "states" then ["country_id"; "country_code"]
  else [].

(** One turn of [COLLECTIONS.forEach] in [onupgradeneeded]. *)
Definition upgrade_collection (stores : gmap string ObjectStore) (collectionName : string)
  : gmap string ObjectStore :=
  match stores !! collectionName with
  | Some _ => stores
  | None => <[collectionName := mkStore (declared_indexes collectionName) []]> stores
  end.

Definition onupgradeneeded (stores : gmap string ObjectStore) : gmap string ObjectStore :=
  foldl upgrade_collection stores COLLECTIONS.

Definition openDB (env : Env) : M unit :=
  emit EOpen;;
  w ← get;
  if negb (storageAllowed env) then throw (Error "IndexedDB error: UnknownError")
  else match idb w with
       | None =>
           modify (λ w, set_db true (set_idb (Some (DB_VERSION, onupgradeneeded ∅)) w))
       | Some (version, stores) =>
           if version <? DB_VERSION then
             modify (λ w, set_db true (set_idb (Some (DB_VERSION, onupgradeneeded stores)) w))
           else if version =? DB_VERSION then modify (set_db true)
           else throw (Error "IndexedDB error: VersionError")
       end.

(** [db.transaction(storeName, mode).objectStore(storeName)]: the store, a
    TypeError when [db] is [null], NotFoundError when the store is missing. *)
Definition objectStore (storeName : string) : M ObjectStore :=
  w ← get;
  if negb (db w) then throw (Platform "TypeError")
  else match idb w with
       | Some (_, stores) =>
           match stores !! storeName with
           | Some s => ret s
           | None => throw (Platform "NotFoundError")
           end
       | None => throw (Platform "NotFoundError")
       end.

Definition guard_db : M unit :=
  w ← get;
  if negb (db w) then throw (Error "Database not initialized") else ret tt.

Definition getAllFromStore (storeName : string) : M (list json) :=
  guard_db;;
  store ← objectStore storeName;
  emit (EGetAll storeName);;
  ret (records store).

(** The records that an index lists under the number [value]. *)
Definition index_matches (indexName : string) (value : Z) (r : json) : bool :=
  match get_field r indexName with
  | Some v => strict_eq_num v value
  | None => false
  end.

Definition getFromIndex (storeName indexName : string) (value : Z) : M (list json) :=
  guard_db;;
  store ← objectStore storeName;
  if negb (existsb (String.eqb indexName) (indexNames store))
  then throw (Platform "NotFoundError")
  else
    emit (EGetFromIndex storeName indexName value);;
    ret (List.filter (index_matches indexName value) (records store)).

(** ** Primary keys ([keyPath: 'id']) *)

(** The parsed values that IndexedDB accepts as keys. *)
Fixpoint valid_key (k : json) : bool :=
  match k with
  | JNum _ | JStr _ => true
  | JArr ks => forallb valid_key ks
  | _ => false
  end.

Fixpoint key_eqb (a b : json) : bool :=
  match a, b with
  | JNum x, JNum y => x =? y
  | JStr x, JStr y => String.eqb x y
  | JArr xs, JArr ys =>
      (fix go (xs ys : list json) : bool :=
         match xs, ys with
         | [], [] => true
         | x :: xs', y :: ys' => key_eqb x y && go xs' ys'
         | _, _ => false
         end) xs ys
  | _, _ => false
  end.

(** The key that the key path extracts from an item, if any. *)
Definition key_of (item : json) : option json :=
  match item with
  | JObj fields =>
      match obj_get fields "id" with
      | Some k => if valid_key k then Some k else None
      | None => None
      end
  | _ => None
  end.

Definition same_key (a b : json) : bool :=
  match key_of a, key_of b with
  | Some ka, Some kb => key_eqb ka kb
  | _, _ => false
  end.

(** [for (const item of data) store.add(item)]: [store.add] throws DataError
    at once on an item without a valid key, and otherwise queues a request.
    The result is the calls made, the requests queued, and whether the loop
    threw. *)
Fixpoint add_loop (items : list json) : list json * list json * bool :=
  match items with
  | [] => ([], [], false)
  | item :: rest =>
      match key_of item with
      | None => ([item], [], true)
      | Some _ =>
          let '(calls, reqs, threw) := add_loop rest in
          (item :: calls, item :: reqs, threw)
      end
  end.

(** The queued requests run in order once the loop has ended.  A request
    whose key is already in the store fails with ConstraintError; nobody
    handles that error, so the transaction aborts: [None]. *)
Fixpoint perform (recs reqs : list json) : option (list json) :=
  match reqs with
  | [] => Some recs
  | item :: rest =>
      if existsb (same_key item) recs then None
      else perform (recs ++ [item]) rest
  end.

(** The world once the transaction on [storeName] has settled: committed, or
    aborted with every write of the batch undone ([None]). *)
Definition settle (storeName : string) (reqs : list json) (w : World) : option World :=
  match idb w with
  | Some (version, stores) =>
      match stores !! storeName with
      | Some s =>
          match perform (records s) reqs with
          | Some recs =>
              Some (set_idb (Some (version,
                      <[storeName := mkStore (indexNames s) recs]> stores)) w)
          | None => None
          end
      | None => Some w
      end
  | None => Some w
  end.

(** What [for ... of] iterates: the items of an array, the characters of a
    string; anything else is not iterable. *)
Definition iterate (data : json) : M (list json) :=
  match data with
  | JArr items => ret items
  | JStr s => ret ((λ c, JStr (String c "")) <$> String.list_ascii_of_string s)
  | _ => throw (Platform "TypeError")
  end.

(** ** Network *)

Definition ok (status : Z) : bool := (200 <=? status) && (status <=? 299).

Definition fetch (env : Env) (url : string) : M (Z * option json) :=
  emit (EFetch url);;
  match net env url with
  | NetworkError => throw (Platform "TypeError")
  | HTTP status body => ret (status, body)
  end.

(** [await response.json()] *)
Definition response_json (body : option json) : M json :=
  match body with
  | Some data => ret data
  | None => throw (Platform "SyntaxError")
  end.

(** ** Rendering functions *)

(** The rows handed to these functions are objects: a store under a key path
    holds nothing else, and the city filter keeps objects only.  Reading
    [r.name] and [r.id] therefore does not throw, and the markup that is
    built from them is represented by the rows themselves. *)

Definition renderRegions (regions : list json) : M unit :=
  emit (ERender "regions" regions);;
  w ← get;
  match tbody (dom w) !! "regions-tb" with
  | None => ret tt
  | Some _ =>
      modify (λ w, set_dom (set_rows "regions-tb" (DataRows "regions" regions) (dom w)) w);;
      updateCount "regions" (Z.of_nat (length regions))
  end.

(** The common shape of [renderSubregions], [renderCountries], [renderStates]
    and [renderCities]. *)
Definition render_rows (type : string) (items : list json) : M unit :=
  emit (ERender type items);;
  w ← get;
  match tbody (dom w) !! (type +:+ "-tb") with
  | None => ret tt
  | Some _ =>
      if (Z.of_nat (length items) =? 0) then
        modify (λ w, set_dom (set_rows (type +:+ "-tb") (NoneFound type) (dom w)) w);;
        updateCount type 0
      else
        modify (λ w, set_dom (set_rows (type +:+ "-tb") (DataRows type items) (dom w)) w);;
        updateCount type (Z.of_nat (length items))
  end.

Definition renderSubregions : list json → M unit := render_rows "subregions".
Definition renderCountries : list json → M unit := render_rows "countries".
Definition renderStates : list json → M unit := render_rows "states".
Definition renderCities : list json → M unit := render_rows "cities".

Definition clearColumn (type : string) : M unit :=
  emit (EClearColumn type);;
  modify (λ w, set_dom (set_rows (type +:+ "-tb") SelectAnItem (dom w)) w);;
  updateCount type 0.

Definition hideLoadingOverlay : M unit :=
  modify (λ w, set_dom (mkDOM (progressWidth (dom w)) (ariaValueNow (dom w))
                              (textContent (dom w)) (tbody (dom w))
                              (match loadingOverlay (dom w) with
                               | Some _ => Some true
                               | None => None
                               end)) w).

Definition set_stat (key : string) (value : string) : M unit :=
  modify (λ w, set_dom (set_text ("stat-" +:+ key) value (dom w)) w).

Definition updateStatistics : M unit :=
  try_catch
    (regions ← getAllFromStore "regions";
     subregions ← getAllFromStore "subregions";
     countries ← getAllFromStore "countries";
     states ← getAllFromStore "states";
     set_stat "regions" (toLocaleString (Z.of_nat (length regions)));;
     set_stat "subregions" (toLocaleString (Z.of_nat (length subregions)));;
     set_stat "countries" (toLocaleString (Z.of_nat (length countries)));;
     set_stat "states" (toLocaleString (Z.of_nat (length states)));;
     set_stat "cities" "~150k")
    (λ error, emit (EConsoleError "Error updating statistics:")).

(** ** The query string *)

(** [window.location.search = search]: the getter then yields the query with
    its leading question mark, or the empty string.  The assignment starts a
    navigation; the script that made it runs on to its [return]. *)
Definition set_search (search : string) : M unit :=
  emit (ESetSearch search);;
  modify (set_location_search
            (match search with
             | EmptyString => ""
             | String c _ => if Ascii.eqb c "?"%char then search else "?" +:+ search
             end)).

(** The pieces of [s] between occurrences of [sep]: the first, and the others. *)
Fixpoint split_on (sep : Ascii.ascii) (s : string) : string * list string :=
  match s with
  | EmptyString => (EmptyString, [])
  | String c s' =>
      let '(piece, pieces) := split_on sep s' in
      if Ascii.eqb c sep then (EmptyString, piece :: pieces)
      else (String c piece, pieces)
  end.

(** A [name=value] piece cut at its first equals sign. *)
Fixpoint cut_pair (s : string) : string * string :=
  match s with
  | EmptyString => (EmptyString, EmptyString)
  | String c s' =>
      if Ascii.eqb c "="%char then (EmptyString, s')
      else let '(name, value) := cut_pair s' in (String c name, value)
  end.

(** [new URLSearchParams(search).get(name)], for queries without percent or
    plus escapes. *)
Definition URLSearchParams_get (search name : string) : option string :=
  let query := match search with
               | String c s' => if Ascii.eqb c "?"%char then s' else search
               | EmptyString => search
               end in
  let '(piece, pieces) := split_on "&"%char query in
  let pairs := cut_pair <$> List.filter (λ p, negb (String.eqb p "")) (piece :: pieces) in
  snd <$> List.find (λ p, String.eqb (fst p) name) pairs.

(** The session that a navigation starts: the script's globals are fresh, the
    document is the authored one, the database and the URL stay. *)
Definition reload (document : DOM) (w : World) : World :=
  mkWorld (idb w) false ∅ (mkSel None None None None) document (location_search w).

(** ** Data initialization *)

Definition progressStep : Z := 100 / Z.of_nat (length COLLECTIONS).

Fixpoint emit_all (evs : list Event) : M unit :=
  match evs with
  | [] => ret tt
  | ev :: rest => emit ev;; emit_all rest
  end.

(** [objectStore.count()] on a read-only transaction. *)
Definition count_records (collectionName : string) : M Z :=
  store ← objectStore collectionName;
  emit (ECount collectionName);;
  ret (Z.of_nat (length (records store))).

(** The read-write transaction of the seeding loop: every [store.add], then
    the wait for [transaction.oncomplete].  The promise has no reject path:
    an aborted transaction leaves it pending. *)
Definition add_batch (collectionName : string) (data : json) : M unit :=
  objectStore collectionName;;
  emit (EReadWrite collectionName);;
  items ← iterate data;
  let '(calls, reqs, threw) := add_loop items in
  emit_all (EAdd collectionName <$> calls);;
  w ← get;
  if (threw : bool) then
    modify (λ w, default w (settle collectionName reqs w));;
    throw (Platform "DataError")
  else
    match settle collectionName reqs w with
    | Some w' => modify (λ _, w')
    | None => never
    end.

(** The body of [for (const collectionName of COLLECTIONS)], up to the
    increment of [progress]. *)
Definition seed_collection (env : Env) (progress : Z) (collectionName : string) : M unit :=
  updateLoadingProgress progress ("Loading " +:+ collectionName +:+ "...");;
  count ← count_records collectionName;
  when (count =? 0)
    ('(status, body) ← fetch env (CONTRIBUTIONS_BASE +:+ collectionName +:+ "/"
                                    +:+ collectionName +:+ ".json");
     if negb (ok status) then
       throw (Error ("Failed to fetch " +:+ collectionName +:+ ": " +:+ pretty status))
     else
       data ← response_json body;
       add_batch collectionName data);;
  when (String.eqb collectionName "regions")
    (regions ← getAllFromStore "regions";
     renderRegions regions).

Fixpoint seed_loop (env : Env) (progress : Z) (collections : list string) : M unit :=
  match collections with
  | [] => ret tt
  | collectionName :: rest =>
      seed_collection env progress collectionName;;
      seed_loop env (progress + progressStep) rest
  end.

Definition initializeData (env : Env) : M unit :=
  w ← get;
  if decide (URLSearchParams_get (location_search w) "reset" = Some "true") then
    deleteDatabase env;;
    set_search ""
  else
    try_catch
      (openDB env;;
       seed_loop env 0 COLLECTIONS;;
       updateLoadingProgress 100 "Complete!";;
       updateStatistics;;
       hideLoadingOverlay)
      (λ error,
         emit (EConsoleError "Error initializing data:");;
         updateLoadingProgress 0 ("Error: " +:+ message error)).

(** ** Filter functions *)

Definition select_region (id : Z) (s : Selections) : Selections :=
  mkSel (Some id) (subregion s) (country s) (state s).
Definition select_subregion (id : Z) (s : Selections) : Selections :=
  mkSel (region s) (Some id) (country s) (state s).
Definition select_country (id : Z) (code : string) (s : Selections) : Selections :=
  mkSel (region s) (subregion s) (Some (id, code)) (state s).
Definition select_state (id : Z) (s : Selections) : Selections :=
  mkSel (region s) (subregion s) (country s) (Some id).

Definition filterSubregions (regionId : Arg) : M unit :=
  match regionId with
  | AStr _ => set_search "reset=true"
  | ANum id =>
      try_catch
        (modify (λ w, set_currentSelections (select_region id (currentSelections w)) w);;
         subregions ← getFromIndex "subregions" "region_id" id;
         renderSubregions subregions;;
         clearColumn "countries";;
         clearColumn "states";;
         clearColumn "cities")
        (λ error, emit (EConsoleError "Error filtering subregions:"))
  end.

Definition filterCountries (subregionId : Z) : M unit :=
  try_catch
    (modify (λ w, set_currentSelections (select_subregion subregionId (currentSelections w)) w);;
     countries ← getFromIndex "countries" "subregion_id" subregionId;
     renderCountries countries;;
     clearColumn "states";;
     clearColumn "cities")
    (λ error, emit (EConsoleError "Error filtering countries:")).

Definition filterStates (countryId : Z) (countryCode : string) : M unit :=
  try_catch
    (modify (λ w, set_currentSelections
                    (select_country countryId countryCode (currentSelections w)) w);;
     states ← getFromIndex "states" "country_id" countryId;
     renderStates states;;
     clearColumn "cities")
    (λ error, emit (EConsoleError "Error filtering states:")).

(** ** The city overlay *)

Definition Object_prototype : list string :=
  ["constructor"; "__defineGetter__"; "__defineSetter__"; "hasOwnProperty";
   "__lookupGetter__"; "__lookupSetter__"; "isPrototypeOf"; "propertyIsEnumerable";
   "toString"; "valueOf"; "__proto__"; "toLocaleString"].

(** [citiesCache[countryCode]] on the plain object [citiesCache = {}]. *)
Definition cache_get (cache : gmap string json) (countryCode : string) : jsval :=
  match cache !! countryCode with
  | Some cities => VJson cities
  | None =>
      if existsb (String.eqb countryCode) Object_prototype then VNative countryCode
      else VUndefined
  end.

(** [cities.filter(c => c.state_id === id)] on an array; [None] is the
    TypeError thrown by the callback on a [null] element. *)
Fixpoint filter_by_state (id : Z) (cities : list json) : option (list json) :=
  match cities with
  | [] => Some []
  | c :: rest =>
      match get_field c "state_id" with
      | None => None
      | Some v =>
          match filter_by_state id rest with
          | None => None
          | Some kept => Some (if strict_eq_num v id then c :: kept else kept)
          end
      end
  end.

(** [citiesCache[countryCode].filter(...)]: only an array has [filter]. *)
Definition cities_of_state (stateId : Z) (cached : jsval) : M (list json) :=
  match cached with
  | VJson (JArr cities) =>
      match filter_by_state (parseInt stateId) cities with
      | Some kept => ret kept
      | None => throw (Platform "TypeError")
      end
  | _ => throw (Platform "TypeError")
  end.

(** [citiesCache[countryCode].length] inside the log line after a fetch. *)
Definition log_length (cached : jsval) : M unit :=
  match cached with
  | VUndefined | VJson JNull => throw (Platform "TypeError")
  | _ => ret tt
  end.

Definition cities_url (countryCode : string) : string :=
  CONTRIBUTIONS_BASE +:+ "cities/" +:+ countryCode +:+ ".json".

(** The [try] block of [filterCities]. *)
Definition load_cities (env : Env) (stateId : Z) (countryCode : string) : M (list json) :=
  modify (λ w, set_currentSelections (select_state stateId (currentSelections w)) w);;
  w ← get;
  when (negb (truthy (cache_get (citiesCache w) countryCode)))
    ('(status, body) ← fetch env (cities_url countryCode);
     if negb (ok status) then
       throw (Error ("Failed to fetch cities: " +:+ pretty status))
     else
       data ← response_json body;
       modify (λ w, set_citiesCache (<[countryCode := data]> (citiesCache w)) w);;
       w ← get;
       log_length (cache_get (citiesCache w) countryCode));;
  w ← get;
  cities_of_state stateId (cache_get (citiesCache w) countryCode).

Definition filterCities (env : Env) (stateId : Z) (countryCode : string) : M unit :=
  w ← get;
  match tbody (dom w) !! "cities-tb" with
  | None => ret tt
  | Some _ =>
      modify (λ w, set_dom (set_rows "cities-tb" LoadingCities (dom w)) w);;
      try_catch
        (cities ← load_cities env stateId countryCode;
         renderCities cities)
        (λ error,
           emit (EConsoleError "Error loading cities");;
           modify (λ w, set_dom (set_rows "cities-tb" ErrorLoadingCities (dom w)) w))
  end.

(** ** Single-record lookup *)


(** * Statements

    The properties that the theorems below settle, and the concrete worlds
    they are tried on. *)

(** ** Schema migration *)

(** The migration as the specification states it: every collection exists
    and carries every index declared for it. *)
Definition fully_migrated (stores : gmap string ObjectStore) : Prop :=
  ∀ c, c ∈ COLLECTIONS →
    ∃ s, stores !! c = Some s ∧ ∀ i, i ∈ declared_indexes c → i ∈ indexNames s.

(** A store left by an older schema: [countries] exists with one of its two
    indexes. *)
Definition older_schema : gmap string ObjectStore :=
  {[ "countries" := mkStore ["subregion_id"] [JObj [("id", JNum 1); ("iso2", JStr "AF")]] ]}.


(** ** Sample worlds *)

(** A document with every element that the script looks up. *)
Definition full_document : DOM :=
  mkDOM (Some 0) (Some 0)
    (list_to_map ((λ id, (id, "")) <$>
       ["loadingStatus"; "regions-count"; "subregions-count"; "countries-count";
        "states-count"; "cities-count"; "stat-regions"; "stat-subregions";
        "stat-countries"; "stat-states"; "stat-cities"]))
    (list_to_map ((λ cls, (cls, Authored)) <$>
       ["regions-tb"; "subregions-tb"; "countries-tb"; "states-tb"; "cities-tb"]))
    (Some false).

(** The first visit: no database, fresh globals. *)
Definition first_visit : World :=
  mkWorld None false ∅ (mkSel None None None None) full_document "".

Definition Asia : json := JObj [("id", JNum 1); ("name", JStr "Asia")].
Definition Southern_Asia : json :=
  JObj [("id", JNum 10); ("name", JStr "Southern Asia"); ("region_id", JNum 1)].
Definition Eastern_Asia : json :=
  JObj [("id", JNum 11); ("name", JStr "Eastern Asia"); ("region_id", JNum 1)].
Definition India : json :=
  JObj [("id", JNum 101); ("name", JStr "India"); ("iso2", JStr "IN");
        ("subregion_id", JNum 10)].
Definition Maharashtra : json :=
  JObj [("id", JNum 100); ("name", JStr "Maharashtra"); ("country_id", JNum 101);
        ("country_code", JStr "IN")].
Definition Mumbai : json :=
  JObj [("id", JNum 1); ("name", JStr "Mumbai"); ("state_id", JNum 100)].
Definition Pune : json :=
  JObj [("id", JNum 2); ("name", JStr "Pune"); ("state_id", JNum 200)].

Definition snapshot_url (collectionName : string) : string :=
  CONTRIBUTIONS_BASE +:+ collectionName +:+ "/" +:+ collectionName +:+ ".json".

(** A network that serves [table] and answers 404 elsewhere. *)
Definition serve (table : list (string * Response)) (url : string) : Response :=
  match List.find (λ entry, String.eqb (fst entry) url) table with
  | Some entry => snd entry
  | None => HTTP 404 None
  end.

Definition healthy_network : string → Response :=
  serve [(snapshot_url "regions", HTTP 200 (Some (JArr [Asia])));
         (snapshot_url "subregions", HTTP 200 (Some (JArr [Southern_Asia; Eastern_Asia])));
         (snapshot_url "countries", HTTP 200 (Some (JArr [India])));
         (snapshot_url "states", HTTP 200 (Some (JArr [Maharashtra])));
         (cities_url "IN", HTTP 200 (Some (JArr [Mumbai; Pune])))].

(** A seeded session in which the user has drilled down to a state. *)
Definition seeded_stores : gmap string ObjectStore :=
  list_to_map
    [("regions", mkStore [] [Asia]);
     ("subregions", mkStore ["region_id"] [Southern_Asia; Eastern_Asia]);
     ("countries", mkStore ["subregion_id"; "iso2"] [India]);
     ("states", mkStore ["country_id"; "country_code"] [Maharashtra])].

Definition drilled_down : World :=
  mkWorld (Some (DB_VERSION, seeded_stores)) true ∅
          (mkSel (Some 1) (Some 10) (Some (101, "IN")) (Some 100))
          full_document "".

(** ** Selection state *)

(** Selection as the specification states it after a region is chosen: the
    three lower selections are cleared, and so are the columns that showed
    their results. *)
Definition narrowed_to_region (w : World) : Prop :=
  subregion (currentSelections w) = None
  ∧ country (currentSelections w) = None
  ∧ state (currentSelections w) = None
  ∧ ∀ type, type ∈ ["countries"; "states"; "cities"] →
      tbody (dom w) !! (type +:+ "-tb") = Some SelectAnItem.

(** ** Counting calls *)

Definition is_fetch (ev : Event) : bool :=
  match ev with EFetch _ => true | _ => false end.
Definition is_batch (ev : Event) : bool :=
  match ev with EReadWrite _ => true | _ => false end.
Definition is_write (ev : Event) : bool :=
  match ev with EReadWrite _ | EAdd _ _ => true | _ => false end.

(** The network fetches and the batch inserts that a log records. *)
Definition fetches (log : list Event) : nat := length (List.filter is_fetch log).

(** Neither a fetch nor a write. *)
Definition idle (ev : Event) : Prop := is_fetch ev = false ∧ is_write ev = false.

(** ** City overlay *)

(** The world once [currentSelections.state = stateId] has run. *)
Definition with_state (stateId : Z) (w : World) : World :=
  set_currentSelections (select_state stateId (currentSelections w)) w.


(** A response that is no success or has no parseable body, or no response
    at all. *)
Definition fetch_fails (r : Response) : Prop :=
  match r with
  | NetworkError => True
  | HTTP status body => ok status = false ∨ body = None
  end.

(** The exception that a failing city-list response raises. *)
Definition cities_fetch_error (r : Response) : exn :=
  match r with
  | NetworkError => Platform "TypeError"
  | HTTP status body =>
      if ok status then Platform "SyntaxError"
      else Error ("Failed to fetch cities: " +:+ pretty status)
  end.

(** A network whose city list for India answers 500. *)
Definition cities_down : string → Response :=
  serve [(cities_url "IN", HTTP 500 None)].

(** ** Seeding *)

(** A session whose database is open at the current version with the four
    collections empty. *)
Definition opened_empty : World :=
  mkWorld (Some (DB_VERSION, onupgradeneeded ∅)) true ∅
          (mkSel None None None None) full_document "".

Definition Europe_as_1 : json := JObj [("id", JNum 1); ("name", JStr "Europe")].

(** A regions snapshot in which two records carry the identifier 1. *)
Definition duplicated_regions : string → Response :=
  serve [(snapshot_url "regions", HTTP 200 (Some (JArr [Asia; Europe_as_1])))].


(** The countries snapshot answers 500; the collections before it are served. *)
Definition countries_down : string → Response :=
  serve [(snapshot_url "regions", HTTP 200 (Some (JArr [Asia])));
         (snapshot_url "subregions", HTTP 200 (Some (JArr [Southern_Asia; Eastern_Asia])));
         (snapshot_url "countries", HTTP 500 None)].


(** An event that queries the collection [c]: its count, its snapshot, a
    write to it, or a read of all its records. *)
Definition queries (c : string) (ev : Event) : Prop :=
  match ev with
  | ECount c' | EReadWrite c' | EAdd c' _ | EGetAll c' => c' = c
  | EFetch url => url = snapshot_url c
  | _ => False
  end.

(** Scenario D as the specification states it: the run settles with the
    error that names [countries], and neither [subregions] is counted nor
    [states] queried. *)
Definition scenario_D (env : Env) (w : World) : Prop :=
  ∃ w' log (status : Z),
    initializeData env w = Returns tt w' log
    ∧ last log = Some (EProgress 0 ("Error: Failed to fetch countries: " +:+ pretty status))
    ∧ (ECount "subregions" ∉ log)
    ∧ ∀ ev, ev ∈ log → ¬ queries "states" ev.

(** Whether [sub] occurs in [s]. *)
Fixpoint contains (s sub : string) : bool :=
  orb (String.prefix sub s)
      (match s with
       | EmptyString => false
       | String _ s' => contains s' sub
       end).

Definition names (c : string) (ev : Event) : bool :=
  match ev with
  | EProgress _ status => contains status c
  | _ => false
  end.

(** Whether a progress report that names [c] follows the count of [c], the
    first call of its step. *)
Fixpoint reported_after (c : string) (log : list Event) : bool :=
  match log with
  | [] => false
  | ECount c' :: rest =>
      if String.eqb c' c then existsb (names c) rest else reported_after c rest
  | _ :: rest => reported_after c rest
  end.

Definition is_report_or_count (ev : Event) : bool :=
  match ev with
  | EProgress _ _ | ECount _ => true
  | _ => false
  end.

(** The reports and the counts of a seeding run, in the order of the loop. *)
Definition seeding_schedule : list Event :=
  [EProgress 0 "Loading regions..."; ECount "regions";
   EProgress 25 "Loading subregions..."; ECount "subregions";
   EProgress 50 "Loading countries..."; ECount "countries";
   EProgress 75 "Loading states..."; ECount "states"].

(** What a step on [c] may call once it has counted: the snapshot fetch,
    the batch insert, and for regions the read and the rendering. *)
Definition after_count (c : string) (ev : Event) : Prop :=
  match ev with
  | EFetch url => url = snapshot_url c
  | EReadWrite c' | EAdd c' _ | EGetAll c' | ERender c' _ => c' = c
  | _ => False
  end.

(** Every event that [m] logs satisfies [P], in every world. *)
Definition emits {A} (P : Event → Prop) (m : M A) : Prop :=
  ∀ w, Forall P (log_of (m w)).

(** The status line of a step. *)
Definition loading (c : string) : string := "Loading " +:+ c +:+ "...".

(** The rest of a step once the count is known. *)
Definition seed_if_empty (env : Env) (c : string) (count : Z) : M unit :=
  when (count =? 0)
    ('(status, body) ← fetch env (snapshot_url c);
     if negb (ok status) then
       throw (Error ("Failed to fetch " +:+ c +:+ ": " +:+ pretty status))
     else
       data ← response_json body;
       add_batch c data);;
  when (String.eqb c "regions")
    (regions ← getAllFromStore "regions";
     renderRegions regions).

(** The reports and counts of the loop over [collections], from [progress]. *)
Fixpoint schedule (progress : Z) (collections : list string) : list Event :=
  match collections with
  | [] => []
  | c :: rest =>
      EProgress progress (loading c) :: ECount c :: schedule (progress + progressStep) rest
  end.

(** ** Further statements *)

(** A record whose field [k] is the number [v]. *)
Definition has_number (k : string) (v : Z) (r : json) : bool :=
  match r with
  | JObj fields =>
      match obj_get fields k with
      | Some (JNum n) => n =? v
      | _ => false
      end
  | _ => false
  end.

(** The object store named [name], if the database has it. *)
Definition store_of (w : World) (name : string) : option ObjectStore :=
  match idb w with
  | Some (_, stores) => stores !! name
  | None => None
  end.

(** [getFromIndex storeName indexName] can run: the handle is set and the
    store exists with that index. *)
Definition queryable (w : World) (storeName indexName : string) : Prop :=
  db w = true
  ∧ ∃ s, store_of w storeName = Some s ∧ indexName ∈ indexNames s.

(** What a column shows for the rows of a query. *)
Definition shown (type : string) (rows : list json) : Rows :=
  match rows with
  | [] => NoneFound type
  | _ => DataRows type rows
  end.

(** The computation leaves [f] of the world as it was, whatever it does. *)
Definition keeps {A X} (f : World → X) (m : M A) : Prop :=
  ∀ w, f (world_of (m w)) = f w.

(** What lies behind the page and the selection: the database, the handle,
    the city overlay and the query string. *)
Definition behind_the_selection (w : World) :=
  (idb w, db w, citiesCache w, location_search w).

(** A call that reads the store or touches the page: no fetch, no write, no
    open, no delete, no navigation. *)
Definition reads (ev : Event) : Prop :=
  match ev with
  | EGetAll _ | EGetFromIndex _ _ _ | ERender _ _ | EClearColumn _ | EConsoleError _ => True
  | _ => False
  end.

(** The calls that showing the cities of [code] may make. *)
Definition city_call (code : string) (ev : Event) : Prop :=
  match ev with
  | EFetch url => url = cities_url code
  | ERender _ _ | EConsoleError _ => True
  | _ => False
  end.

(** The database can be opened: the platform grants access and what is
    stored is not newer than [DB_VERSION]. *)
Definition openable (env : Env) (w : World) : Prop :=
  storageAllowed env = true
  ∧ ∀ version stores, idb w = Some (version, stores) → version ≤ DB_VERSION.



(** Every step of the computation takes the world to one related by [R]. *)
Definition evolves {A} (R : World → World → Prop) (m : M A) : Prop :=
  ∀ w, R w (world_of (m w)).

(** From [w] to [w'] the store [name], if it existed, kept its indexes and
    its records, in order, and gained records at the end at most. *)
Definition store_grew (name : string) (w w' : World) : Prop :=
  ∀ s, store_of w name = Some s →
    ∃ added, store_of w' name = Some (mkStore (indexNames s) (records s ++ added)).

(** From [w] to [w'] nothing changed behind the page but the store of [c],
    which grew at most. *)
Definition grows_only (c : string) (w w' : World) : Prop :=
  db w' = db w
  ∧ citiesCache w' = citiesCache w
  ∧ currentSelections w' = currentSelections w
  ∧ location_search w' = location_search w
  ∧ fst <$> idb w' = fst <$> idb w
  ∧ (∀ c', c' ≠ c → store_of w' c' = store_of w c')
  ∧ store_grew c w w'.




(** A regions snapshot whose second record has no identifier. *)
Definition Nameless : json := JObj [("name", JStr "Nowhere")].

Definition unkeyed_regions : string → Response :=
  serve [(snapshot_url "regions", HTTP 200 (Some (JArr [Asia; Nameless; Europe_as_1])))].

(** A city list that is served as an object instead of an array. *)
Definition wrapped_cities : string → Response :=
  serve [(cities_url "IN", HTTP 200 (Some (JObj [("cities", JArr [Mumbai; Pune])])))].

Definition is_array (data : json) : bool :=
  match data with JArr _ => true | _ => false end.

(** The figure that the statistics panel shows under [key], if the page has
    that element. *)
Definition stat_of (w : World) (key : string) : option string :=
  textContent (dom w) !! ("stat-" +:+ key).

(** The number of records of a collection, as the panel prints it. *)
Definition figure (w : World) (c : string) : string :=
  match store_of w c with
  | Some s => toLocaleString (Z.of_nat (length (records s)))
  | None => ""
  end.

(** * Properties *)

(** ** Schema migration *)

(** The lookups of a store after [COLLECTIONS.forEach] over any list of
    collection names. *)
Lemma upgrade_fold_lookup (cs : list string) (stores : gmap string ObjectStore) (name : string) :
  foldl upgrade_collection stores cs !! name =
  match stores !! name with
  | Some s => Some s
  | None => if decide (name ∈ cs) then Some (mkStore (declared_indexes name) []) else None
  end.
Proof.
  revert stores. induction cs as [|c cs IH]; intros stores.
  - cbn [foldl]. destruct (stores !! name); [done|].
    destruct (decide (name ∈ [])) as [Hin|]; [by apply elem_of_nil in Hin|done].
  - cbn [foldl]. rewrite IH. clear IH. unfold upgrade_collection.
    destruct (decide (c = name)) as [->|Hne].
    + destruct (stores !! name) eqn:Hs.
      * by rewrite Hs.
      * rewrite lookup_insert_eq.
        destruct (decide (name ∈ name :: cs)) as [|Hin]; [done|].
        exfalso. apply Hin. apply elem_of_cons. by left.
    + assert (Hcs : name ∈ c :: cs ↔ name ∈ cs).
      { rewrite elem_of_cons. split; [intros [->|]; done|by right]. }
      destruct (stores !! c) eqn:Hc.
      * destruct (stores !! name); [done|].
        destruct (decide (name ∈ cs)), (decide (name ∈ c :: cs)); tauto.
      * rewrite lookup_insert_ne by done.
        destruct (stores !! name); [done|].
        destruct (decide (name ∈ cs)), (decide (name ∈ c :: cs)); tauto.
Qed.

(** C2, as stated, fails: the migration skips a collection that exists, so
    the index [iso2] that [countries] lacks is not created. *)
Lemma migration_skips_existing_collection :
  ¬ fully_migrated (onupgradeneeded older_schema).
Proof.
  intros H. destruct (H "countries") as (s & Hs & Hidx).
  { unfold COLLECTIONS. repeat constructor. }
  unfold onupgradeneeded in Hs. rewrite upgrade_fold_lookup in Hs.
  unfold older_schema in Hs. rewrite lookup_singleton_eq in Hs.
  injection Hs as <-. specialize (Hidx "iso2"). simpl in Hidx.
  assert (Hin : "iso2" ∈ ["subregion_id"]) by (apply Hidx; repeat constructor).
  apply list_elem_of_singleton in Hin. discriminate Hin.
Qed.

(** C2 (amended): the migration is additive and idempotent.  From every
    store state, each of the four collections exists afterwards; a collection
    that was missing is created empty with every index declared for it; a
    store that existed keeps its records and its indexes as they were; no
    other store appears; migrating again changes nothing. *)
Theorem onupgradeneeded_additive (stores : gmap string ObjectStore) :
  (∀ c, c ∈ COLLECTIONS → is_Some (onupgradeneeded stores !! c))
  ∧ (∀ c, c ∈ COLLECTIONS → stores !! c = None →
       onupgradeneeded stores !! c = Some (mkStore (declared_indexes c) []))
  ∧ (∀ name s, stores !! name = Some s → onupgradeneeded stores !! name = Some s)
  ∧ (∀ name, name ∉ COLLECTIONS → onupgradeneeded stores !! name = stores !! name)
  ∧ onupgradeneeded (onupgradeneeded stores) = onupgradeneeded stores.
Proof.
  unfold onupgradeneeded. repeat split.
  - intros c Hc. rewrite upgrade_fold_lookup.
    destruct (stores !! c); [by eexists|]. rewrite decide_True by done. by eexists.
  - intros c Hc Hnone. rewrite upgrade_fold_lookup, Hnone. by rewrite decide_True.
  - intros name s Hs. by rewrite upgrade_fold_lookup, Hs.
  - intros name Hname. rewrite upgrade_fold_lookup.
    destruct (stores !! name); [done|]. by rewrite decide_False.
  - apply map_eq. intros name. rewrite (upgrade_fold_lookup _ (foldl _ _ _)).
    rewrite upgrade_fold_lookup.
    destruct (stores !! name); [done|]. by destruct (decide (name ∈ COLLECTIONS)).
Qed.

Lemma onupgradeneeded_additive_witness :
  is_Some (onupgradeneeded older_schema !! "states")
  ∧ onupgradeneeded older_schema !! "states"
    = Some (mkStore ["country_id"; "country_code"] [])
  ∧ onupgradeneeded older_schema !! "countries"
    = Some (mkStore ["subregion_id"] [JObj [("id", JNum 1); ("iso2", JStr "AF")]]).
Proof.
  destruct (onupgradeneeded_additive older_schema) as (H1 & H2 & H3 & _ & _).
  split; [|split].
  - apply H1. unfold COLLECTIONS. repeat constructor.
  - apply (H2 "states"); [unfold COLLECTIONS; repeat constructor|reflexivity].
  - apply H3. reflexivity.
Defined.

(** ** Running computations *)

Lemma bind_run {A B} (m : M A) (f : A → M B) (w : World) :
  (m ≫= f) w =
  match m w with
  | Returns a w1 l1 => prepend l1 (f a w1)
  | Throws e w1 l1 => Throws e w1 l1
  | Pending w1 l1 => Pending w1 l1
  end.
Proof. reflexivity. Qed.

Lemma ret_run {A} (a : A) (w : World) : (mret a : M A) w = Returns a w [].
Proof. reflexivity. Qed.

Lemma when_false (m : M unit) (w : World) : when false m w = Returns tt w [].
Proof. reflexivity. Qed.

Lemma prepend_nil {A} (r : Result A) : prepend [] r = r.
Proof. by destruct r. Qed.

Lemma prepend_prepend {A} (l1 l2 : list Event) (r : Result A) :
  prepend l1 (prepend l2 r) = prepend (l1 ++ l2) r.
Proof. destruct r; simpl; by rewrite (assoc_L (++)). Qed.

Lemma log_of_prepend {A} (l : list Event) (r : Result A) :
  log_of (prepend l r) = l ++ log_of r.
Proof. by destruct r. Qed.

Lemma world_of_prepend {A} (l : list Event) (r : Result A) :
  world_of (prepend l r) = world_of r.
Proof. by destruct r. Qed.

(** Unfolds the plumbing of a computation, leaving the calls it makes. *)
Ltac run :=
  cbv [mbind M_bind bind mret M_ret ret emit get modify throw never when
       try_catch prepend];
  cbn [app log_of world_of negb
       idb db citiesCache currentSelections dom location_search
       set_idb set_db set_citiesCache set_currentSelections set_dom
       set_location_search].

(** ** The document *)

Lemma tbody_set_rows (cls k : string) (rows : Rows) (d : DOM) :
  tbody (set_rows cls rows d) !! k =
  if decide (cls = k) then (λ _, rows) <$> tbody d !! k else tbody d !! k.
Proof.
  unfold set_rows. destruct (decide (cls = k)) as [->|Hne].
  - destruct (tbody d !! k) eqn:Hk; simpl; [by rewrite lookup_insert_eq|by rewrite Hk].
  - destruct (tbody d !! cls); simpl; [by rewrite lookup_insert_ne|done].
Qed.

Lemma textContent_set_text (id k text : string) (d : DOM) :
  textContent (set_text id text d) !! k =
  if decide (id = k) then (λ _, text) <$> textContent d !! k else textContent d !! k.
Proof.
  unfold set_text. destruct (decide (id = k)) as [->|Hne].
  - destruct (textContent d !! k) eqn:Hk; simpl; [by rewrite lookup_insert_eq|by rewrite Hk].
  - destruct (textContent d !! id); simpl; [by rewrite lookup_insert_ne|done].
Qed.

Lemma tbody_set_text (id text : string) (d : DOM) :
  tbody (set_text id text d) = tbody d.
Proof. unfold set_text. by destruct (textContent d !! id). Qed.

Lemma textContent_set_rows (cls : string) (rows : Rows) (d : DOM) :
  textContent (set_rows cls rows d) = textContent d.
Proof. unfold set_rows. by destruct (tbody d !! cls). Qed.

Lemma existsb_eqb_elem_of (x : string) (l : list string) :
  x ∈ l → existsb (String.eqb x) l = true.
Proof.
  intros Hin. apply existsb_exists. exists x. split.
  - by apply list_elem_of_In.
  - apply String.eqb_refl.
Qed.

(** ** The reset entry point *)

(** C10: whatever string [filterSubregions] is given, it makes no store query
    and renders nothing: its one call sets the query string to [reset=true].
    The page load that follows takes the reset branch of [initializeData]:
    it deletes the database, opens and seeds nothing, and clears the query
    string. *)
Theorem filterSubregions_string_resets
    (s : string) (w : World) (env : Env) (document : DOM) :
  filterSubregions (AStr s) w
    = Returns tt (set_location_search "?reset=true" w) [ESetSearch "reset=true"]
  ∧ initializeData env (reload document (set_location_search "?reset=true" w))
    = if storageAllowed env
      then Returns tt
             (set_location_search ""
                (set_idb None (reload document (set_location_search "?reset=true" w))))
             [EDeleteDatabase; ESetSearch ""]
      else Throws (Platform "UnknownError")
             (reload document (set_location_search "?reset=true" w))
             [EDeleteDatabase].
Proof.
  split; [reflexivity|].
  unfold initializeData, deleteDatabase, set_search. run.
  by destruct (storageAllowed env).
Qed.

(** ** Selection state *)

(** C6, as stated, fails: choosing another region leaves the subregion,
    country and state selections as they were. *)
Lemma region_choice_keeps_lower_selections :
  ¬ narrowed_to_region (world_of (filterSubregions (ANum 1) drilled_down)).
Proof. intros (Hsub & _). vm_compute in Hsub. discriminate Hsub. Qed.

(** C6 (amended): for a region chosen by number on an open store with the
    [region_id] index, the call sets the region selection and leaves the
    subregion, country and state selections as they are; every one of the
    countries, states and cities columns that the page has shows the
    "select an item" placeholder afterwards, with its count badge at 0; the
    store is not written. *)
Theorem filterSubregions_clears_columns
    (id : Z) (w : World) (version : Z) (stores : gmap string ObjectStore) (s : ObjectStore) :
  db w = true →
  idb w = Some (version, stores) →
  stores !! "subregions" = Some s →
  "region_id" ∈ indexNames s →
  ∃ w' log,
    filterSubregions (ANum id) w = Returns tt w' log
    ∧ currentSelections w' = select_region id (currentSelections w)
    ∧ (∀ type, type ∈ ["countries"; "states"; "cities"] →
         tbody (dom w') !! (type +:+ "-tb")
           = (λ _, SelectAnItem) <$> tbody (dom w) !! (type +:+ "-tb")
         ∧ textContent (dom w') !! (type +:+ "-count")
           = (λ _, "0") <$> textContent (dom w) !! (type +:+ "-count"))
    ∧ idb w' = idb w.
Proof.
  intros Hdb Hidb Hstore Hindex.
  unfold filterSubregions, getFromIndex, guard_db, objectStore, renderSubregions,
    render_rows, clearColumn, updateCount.
  repeat (progress (run; rewrite ?Hdb, ?Hidb, ?Hstore,
                      ?(existsb_eqb_elem_of _ _ Hindex))).
  set (found := List.filter _ _). cbv [String.append].
  destruct (tbody (dom w) !! "subregions-tb") as [old|] eqn:Htb;
    [destruct (Z.of_nat (length found) =? 0)|]; run;
    (eexists _, _; split; [reflexivity|]; split; [reflexivity|]; split; [|exact Hidb]);
    intros type Htype; cbn [dom set_dom];
    repeat (rewrite ?tbody_set_rows, ?tbody_set_text, ?textContent_set_text,
              ?textContent_set_rows);
    apply list_elem_of_In in Htype; cbn [In] in Htype;
    destruct Htype as [<-|[<-|[<-|[]]]]; cbv [String.append];
    repeat (rewrite decide_False by done || rewrite decide_True by done);
    (split; reflexivity).
Qed.

Lemma filterSubregions_clears_columns_witness :
  ∃ w' log,
    filterSubregions (ANum 1) drilled_down = Returns tt w' log
    ∧ currentSelections w' = select_region 1 (currentSelections drilled_down)
    ∧ (∀ type, type ∈ ["countries"; "states"; "cities"] →
         tbody (dom w') !! (type +:+ "-tb")
           = (λ _, SelectAnItem) <$> tbody (dom drilled_down) !! (type +:+ "-tb")
         ∧ textContent (dom w') !! (type +:+ "-count")
           = (λ _, "0") <$> textContent (dom drilled_down) !! (type +:+ "-count"))
    ∧ idb w' = idb drilled_down.
Proof.
  apply (filterSubregions_clears_columns 1 drilled_down DB_VERSION seeded_stores
           (mkStore ["region_id"] [Southern_Asia; Eastern_Asia])).
  - reflexivity.
  - reflexivity.
  - vm_compute. reflexivity.
  - repeat constructor.
Defined.

(** ** The city overlay *)
(** A call that finds a truthy entry goes straight to the filter. *)
Lemma load_cities_hit (env : Env) (stateId : Z) (code : string) (w : World) :
  truthy (cache_get (citiesCache w) code) = true →
  load_cities env stateId code w
  = cities_of_state stateId (cache_get (citiesCache w) code) (with_state stateId w).
Proof.
  intros Hhit. unfold load_cities. run. rewrite Hhit. run.
  by destruct (cities_of_state _ _ _).
Qed.

Lemma log_length_returns (v : jsval) (w w1 : World) (l : list Event) :
  log_length v w = Returns () w1 l → w1 = w ∧ l = [].
Proof.
  unfold log_length, throw, ret. destruct v as [|[]|]; intros H; by simplify_eq.
Qed.

(** A call that finds none fetches; only a successful parse is stored. *)
Lemma load_cities_miss (env : Env) (stateId : Z) (code : string) (w : World) :
  truthy (cache_get (citiesCache w) code) = false →
  load_cities env stateId code w
  = match net env (cities_url code) with
    | HTTP status (Some data) =>
        if ok status then
          prepend [EFetch (cities_url code)]
            ((log_length (VJson data);; cities_of_state stateId (VJson data))
               (set_citiesCache (<[code := data]> (citiesCache w)) (with_state stateId w)))
        else Throws (cities_fetch_error (net env (cities_url code)))
               (with_state stateId w) [EFetch (cities_url code)]
    | _ => Throws (cities_fetch_error (net env (cities_url code)))
             (with_state stateId w) [EFetch (cities_url code)]
    end.
Proof.
  intros Hmiss. unfold load_cities, fetch, response_json. run. rewrite Hmiss. run.
  fold (cities_url code).
  destruct (net env (cities_url code)) as [|status [data|]]; run; [reflexivity| |];
    unfold cities_fetch_error.
  - destruct (ok status); run; [|reflexivity]. fold (with_state stateId w).
    unfold cache_get at 1. rewrite lookup_insert_eq.
    destruct (log_length (VJson data) _) as [[] w1 l1|e w1 l1|w1 l1] eqn:Hlen; [|done..].
    apply log_length_returns in Hlen as [-> ->].
    unfold cache_get. cbn [citiesCache set_citiesCache]. rewrite lookup_insert_eq.
    by destruct (cities_of_state _ _ _).
  - destruct (ok status); reflexivity.
Qed.

(** Whether the filter's callback throws does not depend on the state. *)
Lemma filter_by_state_total (id id' : Z) (cities kept : list json) :
  filter_by_state id cities = Some kept →
  ∃ kept', filter_by_state id' cities = Some kept'.
Proof.
  revert kept. induction cities as [|c cities IH]; intros kept; simpl; [by eexists|].
  destruct (get_field c "state_id"); [|done].
  destruct (filter_by_state id cities) as [k|]; [|done].
  intros _. destruct (IH k eq_refl) as [k' ->]. by eexists.
Qed.


Lemma cache_get_array (cache : gmap string json) (code : string) (cities : list json) :
  cache_get cache code = VJson (JArr cities) → cache !! code = Some (JArr cities).
Proof.
  unfold cache_get. destruct (cache !! code); [congruence|].
  by destruct (existsb _ _).
Qed.

Lemma cache_get_own (cache : gmap string json) (code : string) (data : json) :
  cache !! code = Some data → cache_get cache code = VJson data.
Proof. unfold cache_get. by intros ->. Qed.

Lemma cities_of_state_returns (stateId : Z) (v : jsval) (w w1 : World)
    (cities : list json) (log : list Event) :
  cities_of_state stateId v w = Returns cities w1 log →
  w1 = w ∧ log = [] ∧ ∃ cached, v = VJson (JArr cached)
    ∧ filter_by_state (parseInt stateId) cached = Some cities.
Proof.
  unfold cities_of_state. destruct v as [|[]|]; try done.
  destruct (filter_by_state _ _) eqn:Hf; [|done].
  intros [= <- <- <-]. eauto.
Qed.

(** What a successful call leaves behind: an array under the code. *)
Lemma load_cities_returns (env : Env) (stateId : Z) (code : string) (w w1 : World)
    (cities : list json) (log : list Event) :
  load_cities env stateId code w = Returns cities w1 log →
  ∃ cached,
    citiesCache w1 !! code = Some (JArr cached)
    ∧ filter_by_state (parseInt stateId) cached = Some cities
    ∧ log = (if truthy (cache_get (citiesCache w) code) then []
             else [EFetch (cities_url code)]).
Proof.
  destruct (truthy (cache_get (citiesCache w) code)) eqn:Hcache.
  - rewrite load_cities_hit by done. intros Hret.
    apply cities_of_state_returns in Hret as (-> & -> & cached & Hget & Hf).
    exists cached. split; [|done]. by apply cache_get_array in Hget.
  - rewrite load_cities_miss by done.
    destruct (net env (cities_url code)) as [|status [data|]]; [done| |done].
    destruct (ok status); [|done]. rewrite bind_run.
    destruct (log_length (VJson data) _) as [[] w2 l2|e w2 l2|w2 l2] eqn:Hlen; [|done..].
    apply log_length_returns in Hlen as [-> ->]. rewrite prepend_nil.
    destruct (cities_of_state _ _ _) as [cs w3 l3|e w3 l3|w3 l3] eqn:Hc; [|done..].
    apply cities_of_state_returns in Hc as (-> & -> & cached & [= ->] & Hf).
    simpl. intros [= <- <- <-]. exists cached. split; [|done].
    cbn [citiesCache set_citiesCache]. apply lookup_insert_eq.
Qed.

(** No call removes or replaces an array that the overlay holds. *)
Lemma load_cities_keeps_arrays (env : Env) (stateId : Z) (code' code : string)
    (w : World) (cached : list json) :
  citiesCache w !! code = Some (JArr cached) →
  citiesCache (world_of (load_cities env stateId code' w)) !! code = Some (JArr cached).
Proof.
  intros Hcached.
  destruct (truthy (cache_get (citiesCache w) code')) eqn:Hcache.
  - rewrite load_cities_hit by done. unfold cities_of_state.
    destruct (cache_get _ _) as [|[| | | |cities|]|]; try done.
    by destruct (filter_by_state _ _).
  - assert (Hne : code' ≠ code).
    { intros ->. by rewrite (cache_get_own _ _ _ Hcached) in Hcache. }
    rewrite load_cities_miss by done.
    destruct (net env (cities_url code')) as [|status [data|]]; [done| |done].
    destruct (ok status); [|done].
    rewrite world_of_prepend, bind_run.
    assert (Hkept : (<[code' := data]> (citiesCache w)) !! code = Some (JArr cached))
      by (by rewrite lookup_insert_ne).
    unfold log_length.
    destruct data; try done; rewrite ?ret_run, ?prepend_nil; unfold cities_of_state;
      try done.
    by destruct (filter_by_state _ _).
Qed.

(** C7: a call that succeeded for a country code leaves its array in the
    overlay, and a later call with that code, for any state and whatever the
    network would answer, makes no fetch and filters that cached array.  The
    two calls fetch once in total when the first found no entry (and not at
    all when it found one).  Calls made in between, for any code, keep the
    array where it is. *)
Theorem cached_cities_are_not_refetched
    (env env' : Env) (stateId stateId' : Z) (code : string)
    (w w1 : World) (cities : list json) (log1 : list Event) :
  load_cities env stateId code w = Returns cities w1 log1 →
  ∃ cached cities',
    citiesCache w1 !! code = Some (JArr cached)
    ∧ load_cities env' stateId' code w1 = Returns cities' (with_state stateId' w1) []
    ∧ filter_by_state (parseInt stateId') cached = Some cities'
    ∧ fetches (log1 ++ log_of (load_cities env' stateId' code w1))
      = (if truthy (cache_get (citiesCache w) code) then 0%nat else 1%nat)
    ∧ ∀ env'' stateId'' code'' w2,
        citiesCache w2 !! code = Some (JArr cached) →
        citiesCache (world_of (load_cities env'' stateId'' code'' w2)) !! code
          = Some (JArr cached).
Proof.
  intros Hfirst.
  destruct (load_cities_returns _ _ _ _ _ _ _ Hfirst) as (cached & Hcache & Hf & ->).
  destruct (filter_by_state_total _ (parseInt stateId') _ _ Hf) as [cities' Hf'].
  assert (Hsecond : load_cities env' stateId' code w1
                    = Returns cities' (with_state stateId' w1) []).
  { rewrite load_cities_hit; rewrite (cache_get_own _ _ _ Hcache); [|done].
    unfold cities_of_state. by rewrite Hf'. }
  exists cached, cities'. rewrite Hsecond. repeat split; try done.
  - by destruct (truthy _).
  - intros env'' stateId'' code'' w2. apply load_cities_keeps_arrays.
Qed.

Lemma cached_cities_are_not_refetched_witness :
  ∃ cached cities',
    citiesCache (with_state 100
        (set_citiesCache (<["IN" := JArr [Mumbai; Pune]]> ∅) first_visit)) !! "IN"
      = Some (JArr cached)
    ∧ load_cities (mkEnv (serve []) true) 200 "IN"
        (with_state 100 (set_citiesCache (<["IN" := JArr [Mumbai; Pune]]> ∅) first_visit))
      = Returns cities'
          (with_state 200
             (with_state 100
                (set_citiesCache (<["IN" := JArr [Mumbai; Pune]]> ∅) first_visit))) []
    ∧ filter_by_state (parseInt 200) cached = Some cities'.
Proof.
  destruct (cached_cities_are_not_refetched
              (mkEnv healthy_network true) (mkEnv (serve []) true) 100 200 "IN"
              first_visit
              (with_state 100
                 (set_citiesCache (<["IN" := JArr [Mumbai; Pune]]> ∅) first_visit))
              [Mumbai] [EFetch (cities_url "IN")])
    as (cached & cities' & H1 & H2 & H3 & _).
  - vm_compute. reflexivity.
  - exists cached, cities'. split; [exact H1|]. split; [exact H2|exact H3].
Defined.

(** A call that finds no truthy entry begins with a fetch. *)
Lemma filterCities_miss_fetches_first
    (env : Env) (stateId : Z) (code : string) (w : World) (old : Rows) :
  tbody (dom w) !! "cities-tb" = Some old →
  truthy (cache_get (citiesCache w) code) = false →
  ∃ rest, log_of (filterCities env stateId code w) = EFetch (cities_url code) :: rest.
Proof.
  intros Htb Hmiss. unfold filterCities. run. rewrite Htb. run.
  rewrite load_cities_miss by done.
  destruct (net env (cities_url code)) as [|status [data|]]; run; [by eexists| |by eexists].
  destruct (ok status); run; [|by eexists].
  destruct (log_length _ _) as [[] w3 l3|e w3 l3|w3 l3]; run;
    [destruct (cities_of_state _ _ _); run; [destruct (renderCities _ _)|..]|..];
    by eexists.
Qed.

(** C8: a call that has to fetch and whose fetch fails throws the fetch
    error and stores nothing: the overlay is as it was before the call, so a
    code that had no key still has none.  [filterCities] then shows the
    inline error row instead of results, and the next call with that code
    begins with a fetch of the same list. *)
Theorem failed_city_fetch_is_not_cached
    (env : Env) (stateId : Z) (code : string) (w : World) (old : Rows) :
  tbody (dom w) !! "cities-tb" = Some old →
  truthy (cache_get (citiesCache w) code) = false →
  fetch_fails (net env (cities_url code)) →
  load_cities env stateId code
      (set_dom (set_rows "cities-tb" LoadingCities (dom w)) w)
    = Throws (cities_fetch_error (net env (cities_url code)))
        (with_state stateId (set_dom (set_rows "cities-tb" LoadingCities (dom w)) w))
        [EFetch (cities_url code)]
  ∧ ∃ w',
      filterCities env stateId code w
        = Returns tt w' [EFetch (cities_url code); EConsoleError "Error loading cities"]
      ∧ citiesCache w' = citiesCache w
      ∧ (citiesCache w !! code = None → citiesCache w' !! code = None)
      ∧ tbody (dom w') !! "cities-tb" = Some ErrorLoadingCities
      ∧ ∀ env' stateId', ∃ rest,
          log_of (filterCities env' stateId' code w') = EFetch (cities_url code) :: rest.
Proof.
  intros Htb Hmiss Hfails.
  set (w0 := set_dom (set_rows "cities-tb" LoadingCities (dom w)) w).
  assert (Hload : load_cities env stateId code w0
                  = Throws (cities_fetch_error (net env (cities_url code)))
                      (with_state stateId w0) [EFetch (cities_url code)]).
  { rewrite load_cities_miss by done.
    destruct (net env (cities_url code)) as [|status [data|]]; [done| |done].
    destruct Hfails as [Hok|?]; [|done]. unfold cities_fetch_error. by rewrite Hok. }
  split; [done|].
  unfold filterCities. run. rewrite Htb. run. fold w0. rewrite Hload. run.
  eexists. split; [reflexivity|]. split; [reflexivity|]. split; [done|].
  assert (Hrow : tbody (set_rows "cities-tb" ErrorLoadingCities
                    (set_rows "cities-tb" LoadingCities (dom w))) !! "cities-tb"
                 = Some ErrorLoadingCities).
  { rewrite !tbody_set_rows, !decide_True by done. by rewrite Htb. }
  split; [exact Hrow|].
  intros env' stateId'.
  by apply (filterCities_miss_fetches_first _ _ _ _ ErrorLoadingCities).
Qed.

Lemma failed_city_fetch_is_not_cached_witness :
  load_cities (mkEnv cities_down true) 100 "IN"
      (set_dom (set_rows "cities-tb" LoadingCities (dom first_visit)) first_visit)
    = Throws (Error "Failed to fetch cities: 500")
        (with_state 100
           (set_dom (set_rows "cities-tb" LoadingCities (dom first_visit)) first_visit))
        [EFetch (cities_url "IN")].
Proof.
  refine (proj1 (failed_city_fetch_is_not_cached
                   (mkEnv cities_down true) 100 "IN" first_visit Authored _ _ _)).
  - vm_compute. reflexivity.
  - vm_compute. reflexivity.
  - left. vm_compute. reflexivity.
Defined.



(** ** Seeding *)

(** C3: on a regions snapshot in which two records share an identifier, the
    second [store.add] fails when the transaction runs, the transaction
    aborts and the batch is undone, but the promise that waits for
    [oncomplete] is never settled: [initializeData] stays pending at
    "Loading regions..." and reports no error. *)
Theorem duplicate_key_leaves_seeding_pending :
  ∃ w',
    initializeData (mkEnv duplicated_regions true) first_visit
      = Pending w' [EOpen; EProgress 0 "Loading regions..."; ECount "regions";
                    EFetch (snapshot_url "regions"); EReadWrite "regions";
                    EAdd "regions" Asia; EAdd "regions" Europe_as_1]
    ∧ idb w' = Some (DB_VERSION, onupgradeneeded ∅)
    ∧ textContent (dom w') !! "loadingStatus" = Some "Loading regions...".
Proof. eexists. split; [by vm_compute|]. split; by vm_compute. Qed.


(** C1, as stated, fails: [subregions] comes before [countries] in the loop,
    so its count has been queried by the time the countries fetch fails. *)
Lemma subregions_counted_before_countries_fail :
  ¬ scenario_D (mkEnv countries_down true) first_visit.
Proof.
  intros (w' & log & status & Hrun & _ & Hcount & _).
  vm_compute in Hrun. injection Hrun as <- <-.
  apply Hcount. do 9 apply list_elem_of_further. apply list_elem_of_here.
Qed.

(** C5, as stated, fails: in a run that seeds everything, the report that
    names [states] precedes its step, and what follows the step is the
    report "Complete!". *)
Lemma no_report_after_the_states_step :
  reported_after "states"
    (log_of (initializeData (mkEnv healthy_network true) first_visit)) = false.
Proof. by vm_compute. Qed.

(** *** What a computation can log *)

Section emits.
Context (P : Event → Prop).

Lemma emits_ret {A} (a : A) : emits P (mret a).
Proof. intros w. constructor. Qed.

Lemma emits_throw {A} (e : exn) : emits P (@throw A e).
Proof. intros w. constructor. Qed.

Lemma emits_never {A} : emits P (@never A).
Proof. intros w. constructor. Qed.

Lemma emits_get : emits P get.
Proof. intros w. constructor. Qed.

Lemma emits_modify (f : World → World) : emits P (modify f).
Proof. intros w. constructor. Qed.

Lemma emits_emit (ev : Event) : P ev → emits P (emit ev).
Proof. intros Hev w. by repeat constructor. Qed.

Lemma emits_bind {A B} (m : M A) (f : A → M B) :
  emits P m → (∀ a, emits P (f a)) → emits P (m ≫= f).
Proof.
  intros Hm Hf w. rewrite bind_run. specialize (Hm w).
  destruct (m w) as [a w1 l1|e w1 l1|w1 l1]; [|done..].
  rewrite log_of_prepend. apply Forall_app. split; [done|apply Hf].
Qed.

Lemma emits_try_catch {A} (m : M A) (h : exn → M A) :
  emits P m → (∀ e, emits P (h e)) → emits P (try_catch m h).
Proof.
  intros Hm Hh w. unfold try_catch. specialize (Hm w).
  destruct (m w) as [a w1 l1|e w1 l1|w1 l1]; [done| |done].
  rewrite log_of_prepend. apply Forall_app. split; [done|apply Hh].
Qed.

Lemma emits_when (b : bool) (m : M unit) : emits P m → emits P (when b m).
Proof. destruct b; [done|]. intros _. apply (emits_ret tt). Qed.

Lemma emits_emit_all (evs : list Event) : Forall P evs → emits P (emit_all evs).
Proof.
  induction 1 as [|ev evs Hev _ IH]; [apply (emits_ret tt)|].
  cbn [emit_all]. apply emits_bind; [by apply emits_emit|done].
Qed.
End emits.

(** Splits a computation into its calls and decides each by the rules. *)
Ltac emits_step :=
  lazymatch goal with
  | |- emits _ (_ ≫= _) => apply emits_bind
  | |- emits _ (try_catch _ _) => apply emits_try_catch
  | |- emits _ (when _ _) => apply emits_when
  | |- emits _ (mret _) => apply emits_ret
  | |- emits _ (ret _) => apply emits_ret
  | |- emits _ (throw _) => apply emits_throw
  | |- emits _ never => apply emits_never
  | |- emits _ get => apply emits_get
  | |- emits _ (modify _) => apply emits_modify
  | |- emits _ (emit _) => apply emits_emit
  | |- emits _ (emit_all _) => apply emits_emit_all
  end.

Ltac emits_auto :=
  repeat (intros; first [ emits_step | progress case_match ]).

Lemma emit_all_run (evs : list Event) (w : World) : emit_all evs w = Returns tt w evs.
Proof.
  induction evs as [|ev evs IH]; [done|].
  cbn [emit_all]. rewrite bind_run. cbn. by rewrite IH.
Qed.

Lemma emits_objectStore (P : Event → Prop) (storeName : string) :
  emits P (objectStore storeName).
Proof. unfold objectStore. emits_auto. Qed.

Lemma emits_getAllFromStore (P : Event → Prop) (storeName : string) :
  P (EGetAll storeName) → emits P (getAllFromStore storeName).
Proof.
  intros HP. unfold getAllFromStore, guard_db.
  emits_auto; try done. apply emits_objectStore.
Qed.

Lemma emits_renderRegions (P : Event → Prop) (regions : list json) :
  P (ERender "regions" regions) → emits P (renderRegions regions).
Proof. intros HP. unfold renderRegions, updateCount. emits_auto; done. Qed.

Lemma emits_add_batch (c : string) (data : json) :
  emits (after_count c) (add_batch c data).
Proof.
  unfold add_batch, iterate. emits_auto; try done; try apply emits_objectStore.
  apply Forall_fmap, Forall_true. done.
Qed.

(** The calls of a step after its count belong to its own collection. *)
Lemma emits_seed_if_empty (env : Env) (c : string) (count : Z) :
  emits (after_count c) (seed_if_empty env c count).
Proof.
  apply emits_bind; [apply emits_when|intros _].
  - unfold fetch, response_json. emits_auto; try done. apply emits_add_batch.
  - destruct (String.eqb_spec c "regions") as [->|]; [|apply (emits_ret _ tt)].
    apply emits_bind; [by apply emits_getAllFromStore|].
    intros regions. by apply emits_renderRegions.
Qed.

Lemma updateLoadingProgress_run (percent : Z) (status : string) (w : World) :
  updateLoadingProgress percent status w
  = Returns tt (set_dom (set_text "loadingStatus" status (set_progress percent (dom w))) w)
      [EProgress percent status].
Proof. reflexivity. Qed.

(** The count either throws before it is made, or is made on an open store. *)
Lemma count_records_cases (c : string) (w : World) :
  (∃ e, count_records c w = Throws e w [])
  ∨ (∃ version stores s,
       db w = true ∧ idb w = Some (version, stores) ∧ stores !! c = Some s
       ∧ count_records c w = Returns (Z.of_nat (length (records s))) w [ECount c]).
Proof.
  unfold count_records, objectStore. run.
  destruct (db w) eqn:Hdb; run; [|left; by eexists].
  destruct (idb w) as [[version stores]|] eqn:Hidb; run; [|left; by eexists].
  destruct (stores !! c) as [s|] eqn:Hs; run; [|left; by eexists].
  right. by exists version, stores, s.
Qed.

Lemma seed_collection_unfold (env : Env) (progress : Z) (c : string) :
  seed_collection env progress c
  = (updateLoadingProgress progress (loading c);;
     count ← count_records c;
     seed_if_empty env c count).
Proof. reflexivity. Qed.

(** The shape of a step's log: the report, then the count, then calls on
    the step's own collection. *)
Lemma seed_collection_log (env : Env) (progress : Z) (c : string) (w : World) :
  (∃ e w', seed_collection env progress c w
           = Throws e w' [EProgress progress (loading c)])
  ∨ (∃ tail,
       log_of (seed_collection env progress c w)
       = EProgress progress (loading c) :: ECount c :: tail
       ∧ Forall (after_count c) tail).
Proof.
  rewrite seed_collection_unfold, bind_run, updateLoadingProgress_run.
  set (w1 := set_dom _ w). rewrite bind_run.
  destruct (count_records_cases c w1) as [[e ->]|(v & stores & s & _ & _ & _ & ->)].
  - left. by eexists _, _.
  - right. eexists. rewrite !log_of_prepend. split; [reflexivity|].
    apply emits_seed_if_empty.
Qed.

Lemma seed_collection_returns_log (env : Env) (progress : Z) (c : string)
    (w w' : World) (log : list Event) :
  seed_collection env progress c w = Returns tt w' log →
  ∃ tail, log = EProgress progress (loading c) :: ECount c :: tail
          ∧ Forall (after_count c) tail.
Proof.
  intros Hret. destruct (seed_collection_log env progress c w)
    as [(e & w1 & Hthrow)|(tail & Hlog & Htail)]; [congruence|].
  rewrite Hret in Hlog. by exists tail.
Qed.

(** A step whose snapshot fetch is answered with a failure status throws the
    error that names its collection, right after the fetch. *)
Lemma seed_collection_fetch_refused (env : Env) (progress : Z) (c : string)
    (w : World) (status : Z) (body : option json) :
  net env (snapshot_url c) = HTTP status body →
  ok status = false →
  EFetch (snapshot_url c) ∈ log_of (seed_collection env progress c w) →
  ∃ w', seed_collection env progress c w
        = Throws (Error ("Failed to fetch " +:+ c +:+ ": " +:+ pretty status)) w'
            [EProgress progress (loading c); ECount c; EFetch (snapshot_url c)].
Proof.
  intros Hnet Hok.
  rewrite seed_collection_unfold, bind_run, updateLoadingProgress_run.
  set (w1 := set_dom _ w). rewrite bind_run.
  destruct (count_records_cases c w1) as [[e ->]|(v & stores & s & _ & _ & _ & ->)].
  - cbn. intros Hin. apply list_elem_of_singleton in Hin. discriminate Hin.
  - unfold seed_if_empty. destruct (Z.of_nat (length (records s)) =? 0).
    + intros _. unfold fetch. run. change (CONTRIBUTIONS_BASE +:+ c +:+ "/" +:+ c +:+ ".json")
        with (snapshot_url c). rewrite Hnet. run. rewrite Hok. run. by eexists.
    + intros Hin. exfalso.
      assert (Hquiet : emits (λ ev, is_fetch ev = false)
                (when (String.eqb c "regions")
                   (regions ← getAllFromStore "regions"; renderRegions regions))).
      { apply emits_when, emits_bind; [by apply emits_getAllFromStore|].
        intros regions. by apply emits_renderRegions. }
      rewrite !log_of_prepend in Hin. rewrite bind_run in Hin. cbn in Hin.
      rewrite prepend_nil in Hin.
      apply elem_of_cons in Hin as [Hin|Hin]; [discriminate Hin|].
      apply elem_of_cons in Hin as [Hin|Hin]; [discriminate Hin|].
      specialize (Hquiet w1). rewrite Forall_forall in Hquiet.
      by specialize (Hquiet _ Hin).
Qed.

(** *** The seeding run *)

Lemma openDB_cases (env : Env) (w : World) :
  (∃ w1, openDB env w = Returns tt w1 [EOpen])
  ∨ (∃ e, openDB env w = Throws e w [EOpen]).
Proof.
  unfold openDB. run. destruct (storageAllowed env); run; [|right; by eexists].
  destruct (idb w) as [[version stores]|]; run; [|left; by eexists].
  destruct (version <? DB_VERSION); run; [left; by eexists|].
  destruct (version =? DB_VERSION); run; [left|right]; by eexists.
Qed.

Lemma seed_loop_COLLECTIONS (env : Env) :
  seed_loop env 0 COLLECTIONS
  = (seed_collection env 0 "regions";;
     seed_collection env 25 "subregions";;
     seed_collection env 50 "countries";;
     seed_collection env 75 "states";;
     mret tt).
Proof. reflexivity. Qed.

(** A call made after the count of one collection queries no other. *)
Lemma after_count_queries (c c' : string) (ev : Event) :
  after_count c ev → queries c' ev → c = c' ∨ snapshot_url c = snapshot_url c'.
Proof. destruct ev; simpl; intros H1 H2; try done; subst; auto. Qed.

Lemma seed_collection_queries_own (env : Env) (progress : Z) (c c' : string)
    (w : World) (ev : Event) :
  c ≠ c' → snapshot_url c ≠ snapshot_url c' →
  ev ∈ log_of (seed_collection env progress c w) → ¬ queries c' ev.
Proof.
  intros Hc Hurl Hin Hq.
  destruct (seed_collection_log env progress c w)
    as [(e & w1 & Hthrow)|(tail & Hlog & Htail)].
  - rewrite Hthrow in Hin. apply list_elem_of_singleton in Hin. by subst ev.
  - rewrite Hlog in Hin.
    apply elem_of_cons in Hin as [->|Hin]; [done|].
    apply elem_of_cons in Hin as [->|Hin]; [simpl in Hq; congruence|].
    rewrite Forall_forall in Htail.
    destruct (after_count_queries c c' ev (Htail _ Hin) Hq); congruence.
Qed.

Lemma updateStatistics_no_fetch : emits (λ ev, is_fetch ev = false) updateStatistics.
Proof.
  unfold updateStatistics, set_stat.
  emits_auto; try done; by apply emits_getAllFromStore.
Qed.

(** Decides that an event is none of the listed ones. *)
Ltac not_among H :=
  repeat first
    [ apply elem_of_app in H as [H|H]
    | apply elem_of_cons in H as [H|H]
    | apply elem_of_nil in H ];
  try done; try discriminate H.

(** C1 (amended): when the fetch of [countries/countries.json] is answered
    with a failure status during a run, the run stops there: nothing is
    called after the fetch but the error report, which names [countries] and
    the status; [states], the one collection after [countries], is never
    queried in that run, whereas [subregions], which precedes [countries] in
    the loop, has had its count queried. *)
Theorem countries_fetch_failure_aborts_seeding
    (env : Env) (w : World) (status : Z) (body : option json) :
  net env (snapshot_url "countries") = HTTP status body →
  ok status = false →
  EFetch (snapshot_url "countries") ∈ log_of (initializeData env w) →
  ∃ w' pre,
    initializeData env w
      = Returns tt w'
          (pre ++ [EProgress 50 "Loading countries..."; ECount "countries";
                   EFetch (snapshot_url "countries");
                   EConsoleError "Error initializing data:";
                   EProgress 0 ("Error: Failed to fetch countries: " +:+ pretty status)])
    ∧ ECount "subregions" ∈ pre
    ∧ ∀ ev, ev ∈ log_of (initializeData env w) → ¬ queries "states" ev.
Proof.
  intros Hnet Hok.
  unfold initializeData, updateLoadingProgress, hideLoadingOverlay. run.
  destruct (decide _) as [Hreset|_].
  { unfold deleteDatabase, set_search. run.
    destruct (storageAllowed env); run; intros Hin; not_among Hin. }
  rewrite seed_loop_COLLECTIONS.
  destruct (openDB_cases env w) as [[w0 ->]|[e ->]]; run;
    [|intros Hin; not_among Hin].
  assert (Hown : ∀ c progress w1 c' ev,
            c ∈ ["regions"; "subregions"] → c' ∈ ["countries"; "states"] →
            ev ∈ log_of (seed_collection env progress c w1) → ¬ queries c' ev).
  { intros c progress w1 c' ev Hc Hc'.
    apply list_elem_of_In in Hc, Hc'. cbn [In] in Hc, Hc'.
    destruct Hc as [<-|[<-|[]]], Hc' as [<-|[<-|[]]];
      (apply seed_collection_queries_own;
       [done|intros Heq; vm_compute in Heq; discriminate Heq]). }
  pose proof (Hown "regions" 0 w0) as Hown1.
  destruct (seed_collection env 0 "regions" w0) as [[] w1 l1|e1 w1 l1|w1 l1] eqn:H1;
    cbn [log_of] in Hown1; run.
  2,3: intros Hin; exfalso; not_among Hin;
       exact (Hown1 "countries" _ ltac:(repeat constructor) ltac:(repeat constructor)
                Hin eq_refl).
  pose proof (Hown "subregions" 25 w1) as Hown2.
  pose proof (seed_collection_returns_log env 25 "subregions" w1) as Hcount2.
  destruct (seed_collection env 25 "subregions" w1) as [[] w2 l2|e2 w2 l2|w2 l2] eqn:H2;
    cbn [log_of] in Hown2; run.
  2,3: intros Hin; exfalso; not_among Hin;
       [exact (Hown1 "countries" _ ltac:(repeat constructor) ltac:(repeat constructor)
                 Hin eq_refl)
       |exact (Hown2 "countries" _ ltac:(repeat constructor) ltac:(repeat constructor)
                 Hin eq_refl)].
  pose proof (seed_collection_fetch_refused env 50 "countries" w2 status body Hnet Hok)
    as Hrefused.
  destruct (seed_collection env 50 "countries" w2) as [[] w3 l3|e3 w3 l3|w3 l3] eqn:H3;
    cbn [log_of] in Hrefused; run.
  - (* the step returned: the fetch is nowhere *)
    pose proof (seed_collection_queries_own env 75 "states" "countries" w3) as Hown4.
    destruct (seed_collection env 75 "states" w3) as [[] w4 l4|e4 w4 l4|w4 l4] eqn:H4;
      cbn [log_of] in Hown4; run.
    1: pose proof (updateStatistics_no_fetch
                     (set_dom (set_text "loadingStatus" "Complete!"
                                 (set_progress 100 (dom w4))) w4)) as Hstats;
       rewrite Forall_forall in Hstats;
       destruct (updateStatistics _) as [[] w5 l5|e5 w5 l5|w5 l5];
       cbn [log_of] in Hstats; run.
    all: intros Hin; exfalso; not_among Hin;
      first
        [ exact (Hown1 "countries" _ ltac:(repeat constructor) ltac:(repeat constructor)
                   Hin eq_refl)
        | exact (Hown2 "countries" _ ltac:(repeat constructor) ltac:(repeat constructor)
                   Hin eq_refl)
        | by destruct (Hrefused Hin)
        | refine (Hown4 _ _ _ Hin eq_refl);
            [done|intros Heq; vm_compute in Heq; discriminate Heq]
        | by specialize (Hstats _ Hin) ].
  - (* the step threw: it is the fetch error, and the handler reports it *)
    intros Hin.
    assert (Hl3 : EFetch (snapshot_url "countries") ∈ l3).
    { not_among Hin; exfalso;
        [exact (Hown1 "countries" _ ltac:(repeat constructor) ltac:(repeat constructor)
                  Hin eq_refl)
        |exact (Hown2 "countries" _ ltac:(repeat constructor) ltac:(repeat constructor)
                  Hin eq_refl)]. }
    destruct (Hrefused Hl3) as [w' [= -> -> ->]].
    eexists _, (EOpen :: l1 ++ l2). split; [|split].
    + cbn [app]. by rewrite <- !(assoc_L (++)).
    + destruct (Hcount2 _ _ eq_refl) as (tail & -> & _).
      apply list_elem_of_further, elem_of_app. right.
      apply list_elem_of_further, list_elem_of_here.
    + intros ev Hev. cbn [log_of] in Hev. not_among Hev; subst; try (by intros []).
      * exact (Hown1 "states" _ ltac:(repeat constructor) ltac:(repeat constructor) Hev).
      * exact (Hown2 "states" _ ltac:(repeat constructor) ltac:(repeat constructor) Hev).
      * intros Hq. discriminate Hq.
      * intros Hq. vm_compute in Hq. discriminate Hq.
  - (* the step stays pending: then it made no fetch that was refused *)
    intros Hin. exfalso. not_among Hin;
      first
        [ exact (Hown1 "countries" _ ltac:(repeat constructor) ltac:(repeat constructor)
                   Hin eq_refl)
        | exact (Hown2 "countries" _ ltac:(repeat constructor) ltac:(repeat constructor)
                   Hin eq_refl)
        | by destruct (Hrefused Hin) ].
Qed.

Lemma countries_fetch_failure_aborts_seeding_witness :
  ∃ w' pre,
    initializeData (mkEnv countries_down true) first_visit
      = Returns tt w'
          (pre ++ [EProgress 50 "Loading countries..."; ECount "countries";
                   EFetch (snapshot_url "countries");
                   EConsoleError "Error initializing data:";
                   EProgress 0 ("Error: Failed to fetch countries: " +:+ pretty 500)])
    ∧ ECount "subregions" ∈ pre
    ∧ ∀ ev, ev ∈ log_of (initializeData (mkEnv countries_down true) first_visit) →
        ¬ queries "states" ev.
Proof.
  apply (countries_fetch_failure_aborts_seeding
           (mkEnv countries_down true) first_visit 500 None).
  - vm_compute. reflexivity.
  - reflexivity.
  - vm_compute. repeat first [apply list_elem_of_here | apply list_elem_of_further].
Defined.

(** *** Progress reports *)

Lemma seeding_schedule_eq : schedule 0 COLLECTIONS = seeding_schedule.
Proof. reflexivity. Qed.

Lemma filter_after_count (c : string) (tail : list Event) :
  Forall (after_count c) tail → List.filter is_report_or_count tail = [].
Proof.
  induction 1 as [|ev tail Hev _ IH]; [done|].
  cbn [List.filter]. rewrite IH. by destruct ev.
Qed.

(** The reports and counts of a loop are an initial part of its schedule,
    and all of it when the loop returns. *)
Lemma seed_loop_reports (env : Env) (cs : list string) (progress : Z) (w : World) :
  ∃ k, List.filter is_report_or_count (log_of (seed_loop env progress cs w))
       = take k (schedule progress cs)
    ∧ (∀ w' log, seed_loop env progress cs w = Returns tt w' log →
         List.filter is_report_or_count log = schedule progress cs).
Proof.
  revert progress w. induction cs as [|c cs IH]; intros progress w.
  { exists 0%nat. split; [done|]. by intros w' log [= <- <-]. }
  cbn [seed_loop schedule]. rewrite bind_run.
  destruct (seed_collection_log env progress c w)
    as [(e & w1 & ->)|(tail & Hlog & Htail)].
  { exists 1%nat. split; [done|]. intros w' log [=]. }
  apply filter_after_count in Htail.
  destruct (seed_collection env progress c w) as [[] w1 l1|e w1 l1|w1 l1];
    cbn [log_of] in Hlog; subst l1.
  - destruct (IH (progress + progressStep) w1) as (k & Hk & Hfull).
    exists (S (S k)). rewrite log_of_prepend.
    cbn [List.filter app is_report_or_count]. rewrite List.filter_app, Htail, Hk.
    split; [done|].
    intros w' log Hret.
    destruct (seed_loop env (progress + progressStep) cs w1) as [[] w2 l2|e w2 l2|w2 l2];
      [|done..].
    injection Hret as <- <-.
    cbn [List.filter app is_report_or_count]. rewrite List.filter_app, Htail.
    by rewrite (Hfull _ _ eq_refl).
  - exists 2%nat. cbn [log_of List.filter app is_report_or_count].
    rewrite Htail. split; [done|]. intros w' log [=].
  - exists 2%nat. cbn [log_of List.filter app is_report_or_count].
    rewrite Htail. split; [done|]. intros w' log [=].
Qed.

Lemma filter_none {A} (f : A → bool) (l : list A) :
  Forall (λ x, f x = false) l → List.filter f l = [].
Proof.
  induction 1 as [|x l Hx _ IH]; [done|]. cbn [List.filter]. by rewrite Hx, IH.
Qed.

Lemma updateStatistics_no_report :
  emits (λ ev, is_report_or_count ev = false) updateStatistics.
Proof.
  unfold updateStatistics, set_stat.
  emits_auto; try done; by apply emits_getAllFromStore.
Qed.

(** [updateStatistics] catches what it throws. *)
Lemma updateStatistics_returns (w : World) :
  ∃ w' log, updateStatistics w = Returns tt w' log.
Proof.
  unfold updateStatistics, getAllFromStore, guard_db, objectStore, set_stat.
  destruct (db w) eqn:Hdb; [|run; rewrite Hdb; run; by eexists _, _].
  destruct (idb w) as [[version stores]|] eqn:Hidb;
    [|repeat (progress (run; rewrite ?Hdb, ?Hidb)); by eexists _, _].
  destruct (stores !! "regions") eqn:H1, (stores !! "subregions") eqn:H2,
    (stores !! "countries") eqn:H3, (stores !! "states") eqn:H4;
    repeat (progress (run; rewrite ?Hdb, ?Hidb, ?H1, ?H2, ?H3, ?H4)); by eexists _, _.
Qed.

(** C5 (amended): every step of the seeding loop begins with the progress
    report that carries the percentage reached so far and the name of its
    collection: the report precedes the step, whether the collection is then
    fetched or found present.  In a whole run the reports and the counts
    alternate in the fixed order, each collection's report right before its
    count, up to the step that fails or stays pending; what follows the last
    step is the report (100, "Complete!"), and what follows a failure is the
    error report.  No report that names a collection comes after its step. *)
Theorem progress_reported_before_each_step (env : Env) (w : World) :
  (∀ progress c w1, ∃ tail,
     log_of (seed_collection env progress c w1) = EProgress progress (loading c) :: tail
     ∧ (List.filter is_report_or_count tail = [ECount c]
        ∨ List.filter is_report_or_count tail = []))
  ∧ ∃ k closing,
      List.filter is_report_or_count (log_of (initializeData env w))
        = take k seeding_schedule ++ closing
      ∧ (closing = []
         ∨ (closing = [EProgress 100 "Complete!"] ∧ k = 8%nat)
         ∨ ∃ e, closing = [EProgress 0 ("Error: " +:+ message e)]).
Proof.
  split.
  { intros progress c w1.
    destruct (seed_collection_log env progress c w1)
      as [(e & w2 & ->)|(tail & -> & Htail)]; eexists; (split; [reflexivity|]).
    - by right.
    - left. cbn [List.filter is_report_or_count].
      by rewrite (filter_after_count _ _ Htail). }
  unfold initializeData, updateLoadingProgress, hideLoadingOverlay. run.
  destruct (decide _) as [Hreset|_].
  { exists 0%nat, []. split; [|by left].
    unfold deleteDatabase, set_search. run. by destruct (storageAllowed env). }
  destruct (openDB_cases env w) as [[w0 ->]|[e ->]]; run.
  2: { exists 0%nat. eexists. split; [reflexivity|]. right. right. by eexists. }
  destruct (seed_loop_reports env COLLECTIONS 0 w0) as (k & Hk & Hfull).
  rewrite seeding_schedule_eq in Hk, Hfull.
  destruct (seed_loop env 0 COLLECTIONS w0) as [[] w1 l1|e w1 l1|w1 l1];
    cbn [log_of] in Hk; run.
  - pose proof (updateStatistics_no_report
                  (set_dom (set_text "loadingStatus" "Complete!"
                              (set_progress 100 (dom w1))) w1)) as Hstats.
    destruct (updateStatistics_returns
                (set_dom (set_text "loadingStatus" "Complete!"
                            (set_progress 100 (dom w1))) w1)) as (w2 & l2 & Hst).
    rewrite Hst in Hstats |- *. cbn [log_of] in Hstats |- *.
    exists 8%nat, [EProgress 100 "Complete!"]. split; [|right; by left].
    cbn [List.filter is_report_or_count].
    rewrite List.filter_app, (Hfull _ _ eq_refl). cbn [List.filter is_report_or_count].
    by rewrite List.filter_app, (filter_none _ _ Hstats).
  - exists k. eexists. split; [|right; right; by eexists].
    cbn [List.filter is_report_or_count]. rewrite List.filter_app, Hk. reflexivity.
  - exists k, []. split; [|by left].
    cbn [List.filter is_report_or_count]. by rewrite Hk, (right_id_L [] (++)).
Qed.

(** *** Seed-once *)


Lemma same_key_ids (a b : json) (x y : Z) :
  key_of a = Some (JNum x) → key_of b = Some (JNum y) → same_key a b = (x =? y).
Proof. unfold same_key. by intros -> ->. Qed.

(** Requests with identifiers that are new and distinct all succeed. *)
Lemma perform_distinct (data recs : list json) (ids rids : list Z) :
  key_of <$> recs = Some ∘ JNum <$> rids →
  key_of <$> data = Some ∘ JNum <$> ids →
  NoDup (rids ++ ids) →
  perform recs data = Some (recs ++ data).
Proof.
  revert recs ids rids. induction data as [|item data IH];
    intros recs [|id ids] rids Hrecs Hkeys Hdup; try done.
  { by rewrite (right_id_L [] (++)). }
  injection Hkeys as Hkey Hkeys. cbn [perform].
  assert (Hfresh : existsb (same_key item) recs = false).
  { apply not_true_is_false. intros Hex. apply existsb_exists in Hex as (r & Hr & Hsame).
    apply list_elem_of_In, list_elem_of_lookup in Hr as [i Hi].
    assert (Hri : (key_of <$> recs) !! i = Some (key_of r)) by (by rewrite list_lookup_fmap, Hi).
    rewrite Hrecs, list_lookup_fmap in Hri.
    destruct (rids !! i) as [rid|] eqn:Hrid; [|done]. injection Hri as Hri.
    rewrite (same_key_ids _ _ id rid) in Hsame by done.
    apply Z.eqb_eq in Hsame as ->.
    apply NoDup_app in Hdup as (_ & Hdisj & _).
    apply (Hdisj rid); [by eapply list_elem_of_lookup_2|left]. }
  rewrite Hfresh.
  rewrite (IH (recs ++ [item]) ids (rids ++ [id])).
  - by rewrite <- (assoc_L (++)).
  - rewrite !fmap_app, Hrecs. cbn. by rewrite Hkey.
  - done.
  - rewrite <- (assoc_L (++)). done.
Qed.

(** The end of a step on an open store: for regions the read and the
    rendering, for the others nothing. *)
Lemma regions_tail (c : string) (w : World) (version : Z)
    (stores : gmap string ObjectStore) (s : ObjectStore) :
  db w = true → idb w = Some (version, stores) → stores !! c = Some s →
  ∃ w' tail,
    when (String.eqb c "regions")
      (regions ← getAllFromStore "regions"; renderRegions regions) w
    = Returns tt w' tail
    ∧ idb w' = idb w ∧ db w' = db w ∧ Forall idle tail ∧ ECount c ∉ tail.
Proof.
  intros Hdb Hidb Hs.
  destruct (String.eqb_spec c "regions") as [->|_].
  - unfold getAllFromStore, guard_db, objectStore, renderRegions, updateCount.
    repeat (progress (run; rewrite ?Hdb, ?Hidb, ?Hs)).
    destruct (tbody (dom w) !! "regions-tb"); run;
      (eexists _, _; split; [reflexivity|]; repeat split; try done;
       [by repeat constructor|intros Hin; not_among Hin]).
  - run. eexists _, _. split; [reflexivity|]. repeat split; try done.
    intros Hin. not_among Hin.
Qed.

Lemma count_records_open (c : string) (w : World) (version : Z)
    (stores : gmap string ObjectStore) (s : ObjectStore) :
  db w = true → idb w = Some (version, stores) → stores !! c = Some s →
  count_records c w = Returns (Z.of_nat (length (records s))) w [ECount c].
Proof.
  intros Hdb Hidb Hs. unfold count_records, objectStore.
  by repeat (progress (run; rewrite ?Hdb, ?Hidb, ?Hs)).
Qed.

(** A step on a collection that has records: the report, the count, and for
    regions the rendering. *)
Lemma seed_collection_present (env : Env) (progress : Z) (c : string) (w : World)
    (version : Z) (stores : gmap string ObjectStore) (s : ObjectStore) :
  db w = true → idb w = Some (version, stores) → stores !! c = Some s →
  records s ≠ [] →
  ∃ w' tail,
    seed_collection env progress c w
    = Returns tt w' (EProgress progress (loading c) :: ECount c :: tail)
    ∧ idb w' = idb w ∧ Forall idle tail.
Proof.
  intros Hdb Hidb Hs Hrecs.
  rewrite seed_collection_unfold, bind_run, updateLoadingProgress_run.
  set (w1 := set_dom _ w). rewrite bind_run.
  rewrite (count_records_open c w1 version stores s) by done.
  unfold seed_if_empty.
  assert ((Z.of_nat (length (records s)) =? 0) = false) as ->.
  { apply Z.eqb_neq. by destruct (records s). }
  rewrite bind_run, when_false. cbn [prepend app].
  destruct (regions_tail c w1 version stores s) as (w' & tail & -> & Hidb' & _ & Htail & _);
    try done.
  exists w', tail. by rewrite Hidb'.
Qed.


Lemma idle_filters (l : list Event) :
  Forall idle l →
  List.filter is_fetch l = [] ∧ List.filter is_batch l = [] ∧ List.filter is_write l = [].
Proof.
  intros Hidle. repeat split; apply filter_none; eapply Forall_impl; try exact Hidle;
    intros ev [Hf Hw]; try done.
  by destruct ev.
Qed.




(** ** What a computation leaves alone *)

Section keeps.
Context {X : Type} (f : World → X).

Lemma keeps_ret {A} (a : A) : keeps f (mret a).
Proof. done. Qed.

Lemma keeps_throw {A} (e : exn) : keeps f (@throw A e).
Proof. done. Qed.

Lemma keeps_never {A} : keeps f (@never A).
Proof. done. Qed.

Lemma keeps_get : keeps f get.
Proof. done. Qed.

Lemma keeps_emit (ev : Event) : keeps f (emit ev).
Proof. done. Qed.

Lemma keeps_modify (g : World → World) : (∀ w, f (g w) = f w) → keeps f (modify g).
Proof. intros Hg w. apply Hg. Qed.

Lemma keeps_bind {A B} (m : M A) (k : A → M B) :
  keeps f m → (∀ a, keeps f (k a)) → keeps f (m ≫= k).
Proof.
  intros Hm Hk w. rewrite bind_run. specialize (Hm w).
  destruct (m w) as [a w1 l1|e w1 l1|w1 l1]; [|done..].
  rewrite world_of_prepend. cbn [world_of] in Hm. by rewrite Hk.
Qed.

Lemma keeps_try_catch {A} (m : M A) (h : exn → M A) :
  keeps f m → (∀ e, keeps f (h e)) → keeps f (try_catch m h).
Proof.
  intros Hm Hh w. unfold try_catch. specialize (Hm w).
  destruct (m w) as [a w1 l1|e w1 l1|w1 l1]; [done| |done].
  rewrite world_of_prepend. cbn [world_of] in Hm. by rewrite Hh.
Qed.

Lemma keeps_when (b : bool) (m : M unit) : keeps f m → keeps f (when b m).
Proof. by destruct b. Qed.

Lemma keeps_emit_all (evs : list Event) : keeps f (emit_all evs).
Proof. intros w. by rewrite emit_all_run. Qed.
End keeps.

Ltac keeps_step :=
  lazymatch goal with
  | |- keeps _ (_ ≫= _) => apply keeps_bind
  | |- keeps _ (try_catch _ _) => apply keeps_try_catch
  | |- keeps _ (when _ _) => apply keeps_when
  | |- keeps _ (mret _) => apply keeps_ret
  | |- keeps _ (ret _) => apply keeps_ret
  | |- keeps _ (throw _) => apply keeps_throw
  | |- keeps _ never => apply keeps_never
  | |- keeps _ get => apply keeps_get
  | |- keeps _ (emit _) => apply keeps_emit
  | |- keeps _ (emit_all _) => apply keeps_emit_all
  | |- keeps _ (modify _) => apply keeps_modify
  end.

Ltac keeps_auto :=
  repeat (intros; first [ keeps_step | progress case_match ]).

Lemma keeps_objectStore {X} (f : World → X) (storeName : string) :
  keeps f (objectStore storeName).
Proof. unfold objectStore. keeps_auto. Qed.


Lemma keeps_getFromIndex {X} (f : World → X) (storeName indexName : string) (value : Z) :
  keeps f (getFromIndex storeName indexName value).
Proof. unfold getFromIndex, guard_db. keeps_auto. apply keeps_objectStore. Qed.

Section behind_the_page.
Context {X : Type} (f : World → X) (Hf : ∀ d w, f (set_dom d w) = f w).

Lemma keeps_updateCount (type : string) (count : Z) : keeps f (updateCount type count).
Proof. unfold updateCount. keeps_auto; by rewrite ?Hf. Qed.

Lemma keeps_render_rows (type : string) (rows : list json) :
  keeps f (render_rows type rows).
Proof. unfold render_rows, updateCount. keeps_auto; by rewrite ?Hf. Qed.

Lemma keeps_renderRegions (regions : list json) : keeps f (renderRegions regions).
Proof. unfold renderRegions, updateCount. keeps_auto; by rewrite ?Hf. Qed.

Lemma keeps_clearColumn (type : string) : keeps f (clearColumn type).
Proof. unfold clearColumn, updateCount. keeps_auto; by rewrite ?Hf. Qed.

Lemma keeps_updateLoadingProgress (percent : Z) (status : string) :
  keeps f (updateLoadingProgress percent status).
Proof. unfold updateLoadingProgress. keeps_auto; by rewrite ?Hf. Qed.
End behind_the_page.

(** *** Navigation only reads *)

Lemma emits_getFromIndex (P : Event → Prop) (storeName indexName : string) (value : Z) :
  P (EGetFromIndex storeName indexName value) →
  emits P (getFromIndex storeName indexName value).
Proof.
  intros HP. unfold getFromIndex, guard_db. emits_auto; try done.
  apply emits_objectStore.
Qed.

Lemma emits_render_rows (P : Event → Prop) (type : string) (rows : list json) :
  P (ERender type rows) → emits P (render_rows type rows).
Proof. intros HP. unfold render_rows, updateCount. emits_auto; done. Qed.

Lemma emits_clearColumn (P : Event → Prop) (type : string) :
  P (EClearColumn type) → emits P (clearColumn type).
Proof. intros HP. unfold clearColumn, updateCount. emits_auto; done. Qed.

(** X1.  The three drill-downs over the store make index reads and touch the
    document and the selection, nothing else: whatever the argument and the
    state of the session, the database, the city overlay and the query string
    are as before, and no fetch, write, open or delete is logged. *)
Theorem store_navigation_only_reads (w : World) :
  (∀ id, behind_the_selection (world_of (filterSubregions (ANum id) w))
           = behind_the_selection w
         ∧ Forall reads (log_of (filterSubregions (ANum id) w)))
  ∧ (∀ id, behind_the_selection (world_of (filterCountries id w)) = behind_the_selection w
           ∧ Forall reads (log_of (filterCountries id w)))
  ∧ (∀ id code, behind_the_selection (world_of (filterStates id code w))
                  = behind_the_selection w
                ∧ Forall reads (log_of (filterStates id code w))).
Proof.
  assert (Hdom : ∀ d w0, behind_the_selection (set_dom d w0) = behind_the_selection w0)
    by done.
  repeat split.
  - revert w. change (keeps behind_the_selection (filterSubregions (ANum id))).
    unfold filterSubregions. keeps_auto;
      intros;
      first [reflexivity | apply keeps_getFromIndex
            | apply keeps_render_rows; intros; reflexivity
            | apply keeps_clearColumn; intros; reflexivity].
  - revert w. change (emits reads (filterSubregions (ANum id))).
    unfold filterSubregions. emits_auto;
      intros;
      first [done | by apply emits_getFromIndex | by apply emits_render_rows
            | by apply emits_clearColumn].
  - revert w. change (keeps behind_the_selection (filterCountries id)).
    unfold filterCountries. keeps_auto;
      intros;
      first [reflexivity | apply keeps_getFromIndex
            | apply keeps_render_rows; intros; reflexivity
            | apply keeps_clearColumn; intros; reflexivity].
  - revert w. change (emits reads (filterCountries id)).
    unfold filterCountries. emits_auto;
      intros;
      first [done | by apply emits_getFromIndex | by apply emits_render_rows
            | by apply emits_clearColumn].
  - revert w. change (keeps behind_the_selection (filterStates id code)).
    unfold filterStates. keeps_auto;
      intros;
      first [reflexivity | apply keeps_getFromIndex
            | apply keeps_render_rows; intros; reflexivity
            | apply keeps_clearColumn; intros; reflexivity].
  - revert w. change (emits reads (filterStates id code)).
    unfold filterStates. emits_auto;
      intros;
      first [done | by apply emits_getFromIndex | by apply emits_render_rows
            | by apply emits_clearColumn].
Qed.

(** X2.  Showing the cities of a state never touches the persistent store: the
    database, the handle and the query string are as before, the only fetch
    it can make is the city list of the country asked for, and in the overlay
    no entry but that country's can change. *)
Theorem city_navigation_never_writes
    (env : Env) (stateId : Z) (code : string) (w : World) :
  idb (world_of (filterCities env stateId code w)) = idb w
  ∧ db (world_of (filterCities env stateId code w)) = db w
  ∧ location_search (world_of (filterCities env stateId code w)) = location_search w
  ∧ Forall (city_call code) (log_of (filterCities env stateId code w))
  ∧ ∀ code', code' ≠ code →
      citiesCache (world_of (filterCities env stateId code w)) !! code'
      = citiesCache w !! code'.
Proof.
  assert (Hkeeps : ∀ {X} (f : World → X),
            (∀ d w0, f (set_dom d w0) = f w0) →
            (∀ s w0, f (set_currentSelections s w0) = f w0) →
            (∀ data w0, f (set_citiesCache (<[code := data]> (citiesCache w0)) w0) = f w0) →
            keeps f (filterCities env stateId code)).
  { intros X f Hdom Hsel Hcache.
    unfold filterCities, load_cities, fetch, response_json, log_length, cities_of_state,
      renderCities.
    keeps_auto; intros;
      first [ by rewrite ?Hdom, ?Hsel, ?Hcache
            | apply keeps_render_rows; intros; apply Hdom ]. }
  split; [|split; [|split; [|split]]].
  - by apply (Hkeeps _ idb).
  - by apply (Hkeeps _ db).
  - by apply (Hkeeps _ location_search).
  - revert w. change (emits (city_call code) (filterCities env stateId code)).
    unfold filterCities, load_cities, fetch, response_json, log_length, cities_of_state,
      renderCities.
    emits_auto; intros; first [done | by apply emits_render_rows].
  - intros code' Hne. apply (Hkeeps _ (λ w0, citiesCache w0 !! code')); try done.
    intros data w0. cbn. by rewrite lookup_insert_ne.
Qed.

(** *** Reading back what was seeded *)

Lemma index_matches_has_number (indexName : string) (value : Z) (r : json) :
  index_matches indexName value r = has_number indexName value r.
Proof.
  unfold index_matches, has_number, get_field.
  destruct r as [| | | | |fields]; try done.
  by destruct (obj_get fields indexName) as [[]|].
Qed.









(** *** Queries that cannot run *)

Lemma existsb_eqb_not_elem_of (x : string) (l : list string) :
  x ∉ l → existsb (String.eqb x) l = false.
Proof.
  intros Hnot. apply not_true_is_false. intros Hex.
  apply existsb_exists in Hex as (y & Hy & Heq).
  apply String.eqb_eq in Heq as <-. by apply Hnot, list_elem_of_In.
Qed.

(** Without the handle, the store or the index, the query throws before it
    reads anything. *)
Lemma getFromIndex_refused (c indexName : string) (value : Z) (w : World) :
  ¬ queryable w c indexName →
  ∃ e, getFromIndex c indexName value w = Throws e w [].
Proof.
  intros Hnot. unfold getFromIndex, guard_db, objectStore.
  destruct (db w) eqn:Hdb; [|run; rewrite Hdb; run; by eexists].
  destruct (idb w) as [[version stores]|] eqn:Hidb;
    [|repeat (progress (run; rewrite ?Hdb, ?Hidb)); by eexists].
  destruct (stores !! c) as [s|] eqn:Hs;
    [|repeat (progress (run; rewrite ?Hdb, ?Hidb, ?Hs)); by eexists].
  assert (Hindex : indexName ∉ indexNames s).
  { intros Hin. apply Hnot. split; [done|]. exists s. unfold store_of.
    by rewrite Hidb. }
  repeat (progress (run; rewrite ?Hdb, ?Hidb, ?Hs,
                      ?(existsb_eqb_not_elem_of _ _ Hindex))).
  by eexists.
Qed.

(** X5.  A drill-down whose query cannot run (the database is not open yet, or
    the store or its index is missing) still records the selection, but shows
    nothing: the document is untouched, the dependent columns are not
    cleared, and the only trace is the line on the console. *)
Theorem failed_query_keeps_the_page (w : World) :
  (∀ id, ¬ queryable w "subregions" "region_id" →
     filterSubregions (ANum id) w
     = Returns tt (set_currentSelections (select_region id (currentSelections w)) w)
         [EConsoleError "Error filtering subregions:"])
  ∧ (∀ id, ¬ queryable w "countries" "subregion_id" →
       filterCountries id w
       = Returns tt (set_currentSelections (select_subregion id (currentSelections w)) w)
           [EConsoleError "Error filtering countries:"])
  ∧ (∀ id code, ¬ queryable w "states" "country_id" →
       filterStates id code w
       = Returns tt
           (set_currentSelections (select_country id code (currentSelections w)) w)
           [EConsoleError "Error filtering states:"]).
Proof.
  repeat split.
  - intros id Hnot. unfold filterSubregions. run.
    destruct (getFromIndex_refused "subregions" "region_id" id
                (set_currentSelections (select_region id (currentSelections w)) w))
      as [e ->]; [|done].
    intros (Hdb & s & Hs & Hindex). apply Hnot. split; [done|]. by exists s.
  - intros id Hnot. unfold filterCountries. run.
    destruct (getFromIndex_refused "countries" "subregion_id" id
                (set_currentSelections (select_subregion id (currentSelections w)) w))
      as [e ->]; [|done].
    intros (Hdb & s & Hs & Hindex). apply Hnot. split; [done|]. by exists s.
  - intros id code Hnot. unfold filterStates. run.
    destruct (getFromIndex_refused "states" "country_id" id
                (set_currentSelections (select_country id code (currentSelections w)) w))
      as [e ->]; [|done].
    intros (Hdb & s & Hs & Hindex). apply Hnot. split; [done|]. by exists s.
Qed.

Lemma failed_query_keeps_the_page_witness :
  filterCountries 10 first_visit
  = Returns tt
      (set_currentSelections (select_subregion 10 (currentSelections first_visit))
         first_visit)
      [EConsoleError "Error filtering countries:"].
Proof.
  refine (proj1 (proj2 (failed_query_keeps_the_page first_visit)) 10 _).
  intros [Hdb _]. discriminate Hdb.
Defined.

(** *** What a drill-down shows *)

(** Runs a drill-down on an open store and reads the document afterwards. *)
Ltac drill Hdb Hidb Hstore Hindex :=
  unfold getFromIndex, guard_db, objectStore, renderSubregions, renderCountries,
    renderStates, render_rows, clearColumn, updateCount;
  repeat (progress (run; rewrite ?Hdb, ?Hidb, ?Hstore,
                      ?(existsb_eqb_elem_of _ _ Hindex)));
  cbv [String.append];
  erewrite List.filter_ext by (intros; apply index_matches_has_number).

Ltac read_page :=
  cbn [dom set_dom];
  repeat (rewrite ?tbody_set_rows, ?tbody_set_text, ?textContent_set_text,
            ?textContent_set_rows);
  cbv [String.append];
  repeat (rewrite decide_False by done || rewrite decide_True by done).

Lemma shown_by_length (type : string) (rows : list json) :
  (if Z.of_nat (length rows) =? 0 then NoneFound type else DataRows type rows)
  = shown type rows.
Proof. by destruct rows. Qed.

(** X6.  On an open store with the [subregion_id] index, choosing a subregion
    records it as the subregion selection, shows in the countries column
    exactly the countries whose [subregion_id] is the one chosen (or the
    "none found" row), resets the states and cities columns to the
    placeholder with count 0, and leaves the regions and subregions columns
    and the other selections as they are. *)
Theorem filterCountries_shows_the_countries
    (id : Z) (w : World) (version : Z) (stores : gmap string ObjectStore) (s : ObjectStore) :
  db w = true →
  idb w = Some (version, stores) →
  stores !! "countries" = Some s →
  "subregion_id" ∈ indexNames s →
  ∃ w',
    filterCountries id w
    = Returns tt w'
        [EGetFromIndex "countries" "subregion_id" id;
         ERender "countries" (List.filter (has_number "subregion_id" id) (records s));
         EClearColumn "states"; EClearColumn "cities"]
    ∧ currentSelections w' = select_subregion id (currentSelections w)
    ∧ tbody (dom w') !! "countries-tb"
      = (λ _, shown "countries" (List.filter (has_number "subregion_id" id) (records s)))
        <$> tbody (dom w) !! "countries-tb"
    ∧ (∀ type, type ∈ ["states"; "cities"] →
         tbody (dom w') !! (type +:+ "-tb")
           = (λ _, SelectAnItem) <$> tbody (dom w) !! (type +:+ "-tb")
         ∧ textContent (dom w') !! (type +:+ "-count")
           = (λ _, "0") <$> textContent (dom w) !! (type +:+ "-count"))
    ∧ (∀ type, type ∈ ["regions"; "subregions"] →
         tbody (dom w') !! (type +:+ "-tb") = tbody (dom w) !! (type +:+ "-tb")
         ∧ textContent (dom w') !! (type +:+ "-count")
           = textContent (dom w) !! (type +:+ "-count")).
Proof.
  intros Hdb Hidb Hstore Hindex. unfold filterCountries.
  drill Hdb Hidb Hstore Hindex.
  set (found := List.filter _ _). clearbody found.
  destruct (tbody (dom w) !! "countries-tb") as [old|] eqn:Htb;
    [destruct (Z.of_nat (length found) =? 0) eqn:Hlen|]; run;
    (eexists; split; [reflexivity|]; split; [reflexivity|]; split; [|split]).
  all: try (intros type Htype; apply list_elem_of_In in Htype; cbn [In] in Htype;
            destruct Htype as [<-|[<-|[]]]).
  all: read_page; rewrite ?Htb; try done.
  all: by destruct found.
Qed.

Lemma filterCountries_shows_the_countries_witness :
  ∃ w',
    filterCountries 10 drilled_down
    = Returns tt w'
        [EGetFromIndex "countries" "subregion_id" 10;
         ERender "countries" (List.filter (has_number "subregion_id" 10) [India]);
         EClearColumn "states"; EClearColumn "cities"]
    ∧ currentSelections w' = select_subregion 10 (currentSelections drilled_down).
Proof.
  destruct (filterCountries_shows_the_countries 10 drilled_down DB_VERSION seeded_stores
              (mkStore ["subregion_id"; "iso2"] [India]))
    as (w' & Hrun & Hsel & _).
  - reflexivity.
  - reflexivity.
  - vm_compute. reflexivity.
  - repeat constructor.
  - exists w'. split; [exact Hrun|exact Hsel].
Defined.

(** X7.  On an open store with the [country_id] index, choosing a country records
    its identifier and code as the country selection, shows in the states
    column exactly the states whose [country_id] is the one chosen (or the
    "none found" row), resets the cities column to the placeholder with
    count 0, and leaves the three columns above and the other selections as
    they are. *)
Theorem filterStates_shows_the_states
    (id : Z) (code : string) (w : World) (version : Z)
    (stores : gmap string ObjectStore) (s : ObjectStore) :
  db w = true →
  idb w = Some (version, stores) →
  stores !! "states" = Some s →
  "country_id" ∈ indexNames s →
  ∃ w',
    filterStates id code w
    = Returns tt w'
        [EGetFromIndex "states" "country_id" id;
         ERender "states" (List.filter (has_number "country_id" id) (records s));
         EClearColumn "cities"]
    ∧ currentSelections w' = select_country id code (currentSelections w)
    ∧ tbody (dom w') !! "states-tb"
      = (λ _, shown "states" (List.filter (has_number "country_id" id) (records s)))
        <$> tbody (dom w) !! "states-tb"
    ∧ tbody (dom w') !! "cities-tb" = (λ _, SelectAnItem) <$> tbody (dom w) !! "cities-tb"
    ∧ textContent (dom w') !! "cities-count"
      = (λ _, "0") <$> textContent (dom w) !! "cities-count"
    ∧ (∀ type, type ∈ ["regions"; "subregions"; "countries"] →
         tbody (dom w') !! (type +:+ "-tb") = tbody (dom w) !! (type +:+ "-tb")
         ∧ textContent (dom w') !! (type +:+ "-count")
           = textContent (dom w) !! (type +:+ "-count")).
Proof.
  intros Hdb Hidb Hstore Hindex. unfold filterStates.
  drill Hdb Hidb Hstore Hindex.
  set (found := List.filter _ _). clearbody found.
  destruct (tbody (dom w) !! "states-tb") as [old|] eqn:Htb;
    [destruct (Z.of_nat (length found) =? 0) eqn:Hlen|]; run;
    (eexists; split; [reflexivity|]; split; [reflexivity|];
     split; [|split; [|split]]).
  all: try (intros type Htype; apply list_elem_of_In in Htype; cbn [In] in Htype;
            destruct Htype as [<-|[<-|[<-|[]]]]).
  all: read_page; rewrite ?Htb; try done.
  all: by destruct found.
Qed.

Lemma filterStates_shows_the_states_witness :
  ∃ w',
    filterStates 101 "IN" drilled_down
    = Returns tt w'
        [EGetFromIndex "states" "country_id" 101;
         ERender "states" (List.filter (has_number "country_id" 101) [Maharashtra]);
         EClearColumn "cities"]
    ∧ currentSelections w' = select_country 101 "IN" (currentSelections drilled_down).
Proof.
  destruct (filterStates_shows_the_states 101 "IN" drilled_down DB_VERSION seeded_stores
              (mkStore ["country_id"; "country_code"] [Maharashtra]))
    as (w' & Hrun & Hsel & _).
  - reflexivity.
  - reflexivity.
  - vm_compute. reflexivity.
  - repeat constructor.
  - exists w'. split; [exact Hrun|exact Hsel].
Defined.

(** X8.  On an open store with the [region_id] index, choosing a region by number
    makes one index read and shows in the subregions column exactly the
    subregions whose [region_id] is the one chosen, in the order of the
    store, or the "none found" row when there is none; the regions column is
    left as it is. *)
Theorem filterSubregions_shows_the_subregions
    (id : Z) (w : World) (version : Z) (stores : gmap string ObjectStore) (s : ObjectStore) :
  db w = true →
  idb w = Some (version, stores) →
  stores !! "subregions" = Some s →
  "region_id" ∈ indexNames s →
  ∃ w',
    filterSubregions (ANum id) w
    = Returns tt w'
        [EGetFromIndex "subregions" "region_id" id;
         ERender "subregions" (List.filter (has_number "region_id" id) (records s));
         EClearColumn "countries"; EClearColumn "states"; EClearColumn "cities"]
    ∧ tbody (dom w') !! "subregions-tb"
      = (λ _, shown "subregions" (List.filter (has_number "region_id" id) (records s)))
        <$> tbody (dom w) !! "subregions-tb"
    ∧ tbody (dom w') !! "regions-tb" = tbody (dom w) !! "regions-tb"
    ∧ textContent (dom w') !! "regions-count" = textContent (dom w) !! "regions-count".
Proof.
  intros Hdb Hidb Hstore Hindex. unfold filterSubregions.
  drill Hdb Hidb Hstore Hindex.
  set (found := List.filter _ _). clearbody found.
  destruct (tbody (dom w) !! "subregions-tb") as [old|] eqn:Htb;
    [destruct (Z.of_nat (length found) =? 0) eqn:Hlen|]; run;
    (eexists; split; [reflexivity|]; split; [|split]).
  all: read_page; rewrite ?Htb; try done.
  all: by destruct found.
Qed.

Lemma filterSubregions_shows_the_subregions_witness :
  ∃ w',
    filterSubregions (ANum 1) drilled_down
    = Returns tt w'
        [EGetFromIndex "subregions" "region_id" 1;
         ERender "subregions"
           (List.filter (has_number "region_id" 1) [Southern_Asia; Eastern_Asia]);
         EClearColumn "countries"; EClearColumn "states"; EClearColumn "cities"]
    ∧ tbody (dom w') !! "subregions-tb"
      = (λ _, shown "subregions"
                (List.filter (has_number "region_id" 1) [Southern_Asia; Eastern_Asia]))
        <$> tbody (dom drilled_down) !! "subregions-tb".
Proof.
  destruct (filterSubregions_shows_the_subregions 1 drilled_down DB_VERSION seeded_stores
              (mkStore ["region_id"] [Southern_Asia; Eastern_Asia]))
    as (w' & Hrun & Htb & _).
  - reflexivity.
  - reflexivity.
  - vm_compute. reflexivity.
  - repeat constructor.
  - exists w'. split; [exact Hrun|exact Htb].
Defined.

(** *** Opening the database *)

Lemma openDB_refused (env : Env) (w : World) :
  ¬ openable env w →
  ∃ reason, openDB env w = Throws (Error ("IndexedDB error: " +:+ reason)) w [EOpen].
Proof.
  unfold openable, openDB. intros Hnot. run.
  destruct (storageAllowed env) eqn:Hallowed; run; [|by eexists].
  destruct (idb w) as [[version stores]|] eqn:Hidb; run.
  + destruct (version <? DB_VERSION) eqn:Hlt; run.
    { exfalso. apply Hnot. split; [done|]. intros v st [= <- <-].
      apply Z.ltb_lt in Hlt. lia. }
    destruct (version =? DB_VERSION) eqn:Heq; run; [|by eexists].
    exfalso. apply Hnot. split; [done|]. intros v st [= <- <-].
    apply Z.eqb_eq in Heq. lia.
  + exfalso. apply Hnot. split; [done|]. intros v st [=].
Qed.

(** X9.  [openDB] succeeds exactly when the database can be opened.  It then sets
    the handle and leaves the database at [DB_VERSION] with every store it
    had, records and indexes untouched; a database that was absent or older
    has all four collections afterwards, one that was already at
    [DB_VERSION] is not migrated.  Otherwise [openDB] throws an
    "IndexedDB error" and the session is as it was. *)
Theorem openDB_outcome (env : Env) (w : World) :
  (openable env w →
   ∃ w1 stores1,
     openDB env w = Returns tt w1 [EOpen]
     ∧ db w1 = true
     ∧ idb w1 = Some (DB_VERSION, stores1)
     ∧ (∀ name s, store_of w name = Some s → stores1 !! name = Some s)
     ∧ ((∀ stores, idb w ≠ Some (DB_VERSION, stores)) →
        ∀ c, c ∈ COLLECTIONS → is_Some (stores1 !! c))
     ∧ (∀ stores, idb w = Some (DB_VERSION, stores) → stores1 = stores)
     ∧ citiesCache w1 = citiesCache w ∧ currentSelections w1 = currentSelections w
     ∧ dom w1 = dom w ∧ location_search w1 = location_search w)
  ∧ (¬ openable env w →
     ∃ reason, openDB env w = Throws (Error ("IndexedDB error: " +:+ reason)) w [EOpen]).
Proof.
  assert (Hall : ∀ stores c, c ∈ COLLECTIONS → is_Some (onupgradeneeded stores !! c)).
  { intros stores c Hc. unfold onupgradeneeded. rewrite upgrade_fold_lookup.
    destruct (stores !! c); [by eexists|]. rewrite decide_True by done. by eexists. }
  assert (Hkept : ∀ stores name s, stores !! name = Some s →
            onupgradeneeded stores !! name = Some s).
  { intros stores name s Hs. unfold onupgradeneeded. by rewrite upgrade_fold_lookup, Hs. }
  unfold openable, store_of, openDB. split.
  - intros [Hallowed Hversion]. run. rewrite Hallowed. run.
    destruct (idb w) as [[version stores]|] eqn:Hidb; run.
    + specialize (Hversion version stores eq_refl).
      destruct (version <? DB_VERSION) eqn:Hlt; run.
      * eexists _, _. split; [reflexivity|]. repeat split; try done.
        -- intros name s Hs. by apply Hkept.
        -- intros _ c Hc. by apply Hall.
        -- intros stores' [= -> ->]. by rewrite Z.ltb_irrefl in Hlt.
      * assert (version = DB_VERSION) as -> by (apply Z.ltb_ge in Hlt; lia).
        rewrite Z.eqb_refl. run.
        eexists _, _. split; [reflexivity|]. repeat split; try done.
        -- intros Hnot. by destruct (Hnot stores).
        -- by intros stores' [= ->].
    + eexists _, _. split; [reflexivity|]. repeat split; try done.
      intros _ c Hc. by apply Hall.
  - apply openDB_refused.
Qed.

Lemma openDB_outcome_witness :
  ∃ w1 stores1,
    openDB (mkEnv healthy_network true) first_visit = Returns tt w1 [EOpen]
    ∧ db w1 = true
    ∧ idb w1 = Some (DB_VERSION, stores1).
Proof.
  destruct (proj1 (openDB_outcome (mkEnv healthy_network true) first_visit))
    as (w1 & stores1 & Hrun & Hdb & Hidb & _).
  - split; [reflexivity|]. intros version stores Hidb. discriminate Hidb.
  - exists w1, stores1. split; [exact Hrun|]. split; [exact Hdb|exact Hidb].
Defined.

(** *** Errors of a run *)






(** *** What seeding leaves in place *)

Section evolves.
Context (R : World → World → Prop).
Context (Hrefl : ∀ w, R w w) (Htrans : ∀ w1 w2 w3, R w1 w2 → R w2 w3 → R w1 w3).

Lemma evolves_ret {A} (a : A) : evolves R (mret a).
Proof. intros w. apply Hrefl. Qed.

Lemma evolves_throw {A} (e : exn) : evolves R (@throw A e).
Proof. intros w. apply Hrefl. Qed.

Lemma evolves_never {A} : evolves R (@never A).
Proof. intros w. apply Hrefl. Qed.

Lemma evolves_get : evolves R get.
Proof. intros w. apply Hrefl. Qed.

Lemma evolves_emit (ev : Event) : evolves R (emit ev).
Proof. intros w. apply Hrefl. Qed.

Lemma evolves_modify (g : World → World) : (∀ w, R w (g w)) → evolves R (modify g).
Proof. intros Hg w. apply Hg. Qed.

Lemma evolves_bind {A B} (m : M A) (k : A → M B) :
  evolves R m → (∀ a, evolves R (k a)) → evolves R (m ≫= k).
Proof.
  intros Hm Hk w. rewrite bind_run. specialize (Hm w).
  destruct (m w) as [a w1 l1|e w1 l1|w1 l1]; [|done..].
  rewrite world_of_prepend. eapply Htrans; [exact Hm|apply Hk].
Qed.

Lemma evolves_try_catch {A} (m : M A) (h : exn → M A) :
  evolves R m → (∀ e, evolves R (h e)) → evolves R (try_catch m h).
Proof.
  intros Hm Hh w. unfold try_catch. specialize (Hm w).
  destruct (m w) as [a w1 l1|e w1 l1|w1 l1]; [done| |done].
  rewrite world_of_prepend. eapply Htrans; [exact Hm|apply Hh].
Qed.

Lemma evolves_when (b : bool) (m : M unit) : evolves R m → evolves R (when b m).
Proof. destruct b; [done|]. intros _ w. apply Hrefl. Qed.

Lemma evolves_emit_all (evs : list Event) : evolves R (emit_all evs).
Proof. intros w. rewrite emit_all_run. apply Hrefl. Qed.
End evolves.

Ltac evolves_step :=
  lazymatch goal with
  | |- evolves _ (_ ≫= _) => apply evolves_bind
  | |- evolves _ (try_catch _ _) => apply evolves_try_catch
  | |- evolves _ (when _ _) => apply evolves_when
  | |- evolves _ (mret _) => apply evolves_ret
  | |- evolves _ (ret _) => apply evolves_ret
  | |- evolves _ (throw _) => apply evolves_throw
  | |- evolves _ never => apply evolves_never
  | |- evolves _ get => apply evolves_get
  | |- evolves _ (emit _) => apply evolves_emit
  | |- evolves _ (emit_all _) => apply evolves_emit_all
  | |- evolves _ (modify _) => apply evolves_modify
  end.

Ltac evolves_auto :=
  repeat (intros; first [ evolves_step | progress case_match ]).

Lemma store_grew_refl (name : string) (w : World) : store_grew name w w.
Proof.
  intros s Hs. exists []. rewrite (right_id_L [] (++)). by destruct s.
Qed.

Lemma store_grew_trans (name : string) (w1 w2 w3 : World) :
  store_grew name w1 w2 → store_grew name w2 w3 → store_grew name w1 w3.
Proof.
  intros H12 H23 s Hs. destruct (H12 s Hs) as [added Hs2].
  destruct (H23 _ Hs2) as [added' Hs3]. exists (added ++ added').
  rewrite Hs3. cbn. by rewrite (assoc_L (++)).
Qed.

Lemma grows_only_refl (c : string) (w : World) : grows_only c w w.
Proof. repeat split; try done. apply store_grew_refl. Qed.

Lemma grows_only_trans (c : string) (w1 w2 w3 : World) :
  grows_only c w1 w2 → grows_only c w2 w3 → grows_only c w1 w3.
Proof.
  intros (Ha & Hb & Hc & Hd & He & Hf & Hg) (Ha' & Hb' & Hc' & Hd' & He' & Hf' & Hg').
  repeat split; try congruence.
  - intros c' Hne. by rewrite Hf', Hf.
  - by eapply store_grew_trans.
Qed.

Lemma grows_only_set_dom (c : string) (d : DOM) (w : World) :
  grows_only c w (set_dom d w).
Proof. repeat split; try done. exact (store_grew_refl c w). Qed.

(** The requests of a transaction only add records, after those present. *)
Lemma perform_extends (reqs recs recs' : list json) :
  perform recs reqs = Some recs' → ∃ added, recs' = recs ++ added.
Proof.
  revert recs. induction reqs as [|item reqs IH]; intros recs; cbn [perform].
  - intros [= <-]. exists []. by rewrite (right_id_L [] (++)).
  - destruct (existsb _ _); [done|]. intros Hrest.
    destruct (IH _ Hrest) as [added ->]. exists (item :: added).
    by rewrite <- (assoc_L (++)).
Qed.

Lemma grows_only_settle (c : string) (reqs : list json) (w w' : World) :
  settle c reqs w = Some w' → grows_only c w w'.
Proof.
  unfold settle. destruct (idb w) as [[version stores]|] eqn:Hidb;
    [|intros [= <-]; apply grows_only_refl].
  destruct (stores !! c) as [s|] eqn:Hs; [|intros [= <-]; apply grows_only_refl].
  destruct (perform (records s) reqs) as [recs|] eqn:Hperform; [|done].
  intros [= <-]. destruct (perform_extends _ _ _ Hperform) as [added ->].
  repeat split; try done.
  - cbn. by rewrite Hidb.
  - intros c' Hne. unfold store_of. cbn. rewrite Hidb. by rewrite lookup_insert_ne.
  - intros s0. unfold store_of. cbn. rewrite Hidb, Hs. intros [= <-].
    exists added. by rewrite lookup_insert_eq.
Qed.

Lemma evolves_objectStore (R : World → World → Prop) (storeName : string) :
  (∀ w, R w w) → (∀ w1 w2 w3, R w1 w2 → R w2 w3 → R w1 w3) →
  evolves R (objectStore storeName).
Proof. intros Hrefl Htrans. unfold objectStore. evolves_auto; done. Qed.

(** The end of the batch: the transaction settles, and the world is the one
    it leaves. *)
Lemma evolves_settle (c : string) (reqs : list json) (threw : bool) :
  evolves (grows_only c)
    (w ← get;
     if threw then
       modify (λ w, default w (settle c reqs w));;
       throw (Platform "DataError")
     else
       match settle c reqs w with
       | Some w' => modify (λ _, w')
       | None => never
       end).
Proof.
  intros w. run. destruct threw, (settle c reqs w) as [w'|] eqn:Hsettle; run;
    first [by eapply grows_only_settle | apply grows_only_refl].
Qed.

Lemma evolves_seed_collection (env : Env) (progress : Z) (c : string) :
  evolves (grows_only c) (seed_collection env progress c).
Proof.
  pose proof (grows_only_refl c) as Hrefl. pose proof (grows_only_trans c) as Htrans.
  unfold seed_collection, updateLoadingProgress, count_records, fetch, response_json,
    add_batch, iterate, getAllFromStore, guard_db, renderRegions, updateCount.
  repeat (intros; first [ apply evolves_settle | evolves_step | progress case_match ]);
    intros;
    first [ done
          | by eapply grows_only_trans
          | by apply evolves_objectStore
          | apply grows_only_set_dom ].
Qed.

(** X12.  A seeding step changes nothing behind the page except the object store
    of its own collection, and that store can only gain records: whatever
    the network answers and however the step ends, the other stores, the
    database version, the handle, the overlay, the selection and the query
    string are as before, and the records and indexes the store had are
    still there, in order. *)
Theorem seed_step_touches_only_its_collection
    (env : Env) (progress : Z) (c : string) (w : World) :
  grows_only c w (world_of (seed_collection env progress c w)).
Proof. apply evolves_seed_collection. Qed.









(** *** Whole runs *)













(** *** Reset *)



(** *** A record without a key *)

(** The loop of [store.add] calls stops at the first item without a valid
    key; the requests queued before it stay queued. *)
Lemma add_loop_invalid (good rest : list json) (bad : json) (ids : list Z) :
  key_of <$> good = Some ∘ JNum <$> ids → key_of bad = None →
  add_loop (good ++ bad :: rest) = (good ++ [bad], good, true).
Proof.
  revert ids. induction good as [|item good IH]; intros [|id ids] Hkeys Hbad; try done.
  - cbn [app add_loop]. by rewrite Hbad.
  - injection Hkeys as Hkey Hkeys. cbn [app add_loop]. rewrite Hkey.
    by rewrite (IH _ Hkeys Hbad).
Qed.

(** X17.  When the snapshot of an empty collection holds a record without a
    valid key after records with distinct integer identifiers, the step
    throws DataError at that record, no later record is handed to the store,
    and the records before it are committed.  If there are any, the
    collection is no longer empty, so the same step run again returns without
    a fetch: the collection stays partially seeded. *)
Theorem invalid_record_leaves_a_partial_collection
    (env : Env) (progress : Z) (c : string) (w : World) (version : Z)
    (stores : gmap string ObjectStore) (s : ObjectStore)
    (status : Z) (good rest : list json) (bad : json) (ids : list Z) :
  db w = true → idb w = Some (version, stores) → stores !! c = Some s →
  records s = [] →
  net env (snapshot_url c) = HTTP status (Some (JArr (good ++ bad :: rest))) →
  ok status = true →
  key_of <$> good = Some ∘ JNum <$> ids → NoDup ids → key_of bad = None →
  ∃ w',
    seed_collection env progress c w
    = Throws (Platform "DataError") w'
        ([EProgress progress (loading c); ECount c; EFetch (snapshot_url c); EReadWrite c]
         ++ (EAdd c <$> good ++ [bad]))
    ∧ store_of w' c = Some (mkStore (indexNames s) good)
    ∧ (good ≠ [] →
       ∀ env' progress', ∃ w'' log,
         seed_collection env' progress' c w' = Returns tt w'' log
         ∧ fetches log = 0%nat
         ∧ store_of w'' c = Some (mkStore (indexNames s) good)).
Proof.
  intros Hdb Hidb Hs Hrecs Hnet Hok Hkeys Hdup Hbad.
  rewrite seed_collection_unfold, bind_run, updateLoadingProgress_run.
  set (w1 := set_dom _ w). rewrite bind_run.
  rewrite (count_records_open c w1 version stores s) by done.
  unfold seed_if_empty. rewrite Hrecs.
  change (Z.of_nat (length []) =? 0) with true.
  set (w2 := set_idb (Some (version, <[c := mkStore (indexNames s) good]> stores)) w1).
  assert (Hbatch : add_batch c (JArr (good ++ bad :: rest)) w1
                   = Throws (Platform "DataError") w2
                       (EReadWrite c :: (EAdd c <$> good ++ [bad]))).
  { assert (Hdb1 : db w1 = true) by done.
    assert (Hidb1 : idb w1 = Some (version, stores)) by done.
    unfold add_batch, objectStore, iterate, settle.
    repeat (progress (run; rewrite ?Hdb1, ?Hidb1, ?Hs)).
    rewrite (add_loop_invalid _ _ _ _ Hkeys Hbad). run. rewrite emit_all_run.
    repeat (progress (run; rewrite ?Hdb1, ?Hidb1, ?Hs)).
    rewrite Hrecs, (perform_distinct good [] ids []) by done.
    cbn [default app]. by rewrite (right_id_L [] (++)). }
  rewrite bind_run.
  assert (Hfirst :
    when true
      ('(status, body) ← fetch env (snapshot_url c);
       if negb (ok status) then
         throw (Error ("Failed to fetch " +:+ c +:+ ": " +:+ pretty status))
       else
         data ← response_json body;
         add_batch c data) w1
    = Throws (Platform "DataError") w2
        (EFetch (snapshot_url c) :: EReadWrite c :: (EAdd c <$> good ++ [bad]))).
  { unfold fetch, response_json. run. rewrite Hnet. run. rewrite Hok. run.
    by rewrite Hbatch. }
  rewrite Hfirst. cbn [prepend app].
  exists w2. split; [reflexivity|].
  assert (Hstore : store_of w2 c = Some (mkStore (indexNames s) good)).
  { unfold store_of. cbn [w2 idb set_idb]. apply lookup_insert_eq. }
  split; [exact Hstore|].
  intros Hgood env' progress'.
  destruct (seed_collection_present env' progress' c w2 version
              (<[c := mkStore (indexNames s) good]> stores) (mkStore (indexNames s) good))
    as (w'' & tail & Hrun & Hidb'' & Htail);
    [done|done|apply lookup_insert_eq|done|].
  exists w'', (EProgress progress' (loading c) :: ECount c :: tail).
  split; [exact Hrun|]. split.
  - destruct (idle_filters _ Htail) as (Hf & _ & _).
    unfold fetches. cbn [List.filter is_fetch]. by rewrite Hf.
  - unfold store_of in *. by rewrite Hidb''.
Qed.

Lemma invalid_record_leaves_a_partial_collection_witness :
  ∃ w',
    seed_collection (mkEnv unkeyed_regions true) 0 "regions" opened_empty
    = Throws (Platform "DataError") w'
        ([EProgress 0 (loading "regions"); ECount "regions";
          EFetch (snapshot_url "regions"); EReadWrite "regions"]
         ++ (EAdd "regions" <$> [Asia] ++ [Nameless]))
    ∧ store_of w' "regions" = Some (mkStore [] [Asia]).
Proof.
  destruct (invalid_record_leaves_a_partial_collection
              (mkEnv unkeyed_regions true) 0 "regions" opened_empty DB_VERSION
              (onupgradeneeded ∅) (mkStore [] []) 200 [Asia] [Europe_as_1] Nameless [1])
    as (w' & Hrun & Hstore & _).
  - reflexivity.
  - reflexivity.
  - vm_compute. reflexivity.
  - reflexivity.
  - vm_compute. reflexivity.
  - reflexivity.
  - reflexivity.
  - apply NoDup_singleton.
  - reflexivity.
  - exists w'. split; [exact Hrun|exact Hstore].
Defined.

(** *** A city list that is not an array *)

Lemma cities_of_state_not_array (stateId : Z) (data : json) (w : World) :
  is_array data = false →
  cities_of_state stateId (VJson data) w = Throws (Platform "TypeError") w [].
Proof. by destruct data. Qed.

Lemma log_length_truthy (v : jsval) (w : World) :
  truthy v = true → log_length v w = Returns tt w [].
Proof. by destruct v as [|[]|]. Qed.

Lemma set_rows_shown (rows : Rows) (d : DOM) (old : Rows) :
  tbody d !! "cities-tb" = Some old →
  tbody (set_rows "cities-tb" rows d) !! "cities-tb" = Some rows.
Proof.
  intros Htb. rewrite tbody_set_rows. destruct (decide _); [|done]. by rewrite Htb.
Qed.

(** X18.  A city list that parses to a truthy value other than an array is
    stored under the country code all the same.  The call that fetched it
    shows the error row, and so does every later call for that country,
    without a fetch, whatever the network would serve by then. *)
Theorem non_array_city_list_is_cached
    (env : Env) (stateId : Z) (code : string) (w : World) (old : Rows)
    (status : Z) (data : json) :
  tbody (dom w) !! "cities-tb" = Some old →
  truthy (cache_get (citiesCache w) code) = false →
  net env (cities_url code) = HTTP status (Some data) → ok status = true →
  is_array data = false → truthy (VJson data) = true →
  ∃ w1,
    filterCities env stateId code w
      = Returns tt w1 [EFetch (cities_url code); EConsoleError "Error loading cities"]
    ∧ citiesCache w1 !! code = Some data
    ∧ tbody (dom w1) !! "cities-tb" = Some ErrorLoadingCities
    ∧ ∀ env' stateId', ∃ w2,
        filterCities env' stateId' code w1
          = Returns tt w2 [EConsoleError "Error loading cities"]
        ∧ citiesCache w2 !! code = Some data
        ∧ tbody (dom w2) !! "cities-tb" = Some ErrorLoadingCities.
Proof.
  intros Htb Hmiss Hnet Hok Harr Htruthy.
  set (w0 := set_dom (set_rows "cities-tb" LoadingCities (dom w)) w).
  assert (Hload : load_cities env stateId code w0
                  = Throws (Platform "TypeError")
                      (set_citiesCache (<[code := data]> (citiesCache w0))
                         (with_state stateId w0))
                      [EFetch (cities_url code)]).
  { rewrite load_cities_miss by done. rewrite Hnet, Hok.
    rewrite bind_run, log_length_truthy by done.
    by rewrite cities_of_state_not_array. }
  unfold filterCities at 1. run. rewrite Htb. run. fold w0. rewrite Hload. run.
  eexists. split; [reflexivity|].
  split; [apply lookup_insert_eq|].
  assert (Hrow : tbody (set_rows "cities-tb" ErrorLoadingCities
                          (set_rows "cities-tb" LoadingCities (dom w))) !! "cities-tb"
                 = Some ErrorLoadingCities).
  { apply (set_rows_shown _ _ LoadingCities), (set_rows_shown _ _ old), Htb. }
  split; [exact Hrow|].
  intros env' stateId'.
  match goal with |- context [filterCities env' stateId' code ?x] => set (w1 := x) end.
  assert (Hcache : citiesCache w1 !! code = Some data) by apply lookup_insert_eq.
  set (w3 := set_dom (set_rows "cities-tb" LoadingCities (dom w1)) w1).
  assert (Hload' : load_cities env' stateId' code w3
                   = Throws (Platform "TypeError") (with_state stateId' w3) []).
  { assert (Hcache3 : citiesCache w3 !! code = Some data) by exact Hcache.
    rewrite load_cities_hit; rewrite (cache_get_own _ _ _ Hcache3); [|done].
    by rewrite cities_of_state_not_array. }
  unfold filterCities. run.
  change (tbody (dom w1) !! "cities-tb") with
    (tbody (set_rows "cities-tb" ErrorLoadingCities
              (set_rows "cities-tb" LoadingCities (dom w))) !! "cities-tb").
  rewrite Hrow. run. fold w3. rewrite Hload'. run.
  eexists. split; [reflexivity|]. split; [exact Hcache|].
  apply (set_rows_shown _ _ LoadingCities), (set_rows_shown _ _ ErrorLoadingCities), Hrow.
Qed.

Lemma non_array_city_list_is_cached_witness :
  ∃ w1,
    filterCities (mkEnv wrapped_cities true) 100 "IN" drilled_down
      = Returns tt w1 [EFetch (cities_url "IN"); EConsoleError "Error loading cities"]
    ∧ citiesCache w1 !! "IN" = Some (JObj [("cities", JArr [Mumbai; Pune])])
    ∧ tbody (dom w1) !! "cities-tb" = Some ErrorLoadingCities.
Proof.
  destruct (non_array_city_list_is_cached (mkEnv wrapped_cities true) 100 "IN"
              drilled_down Authored 200 (JObj [("cities", JArr [Mumbai; Pune])]))
    as (w1 & Hrun & Hcache & Hrow & _).
  - vm_compute. reflexivity.
  - vm_compute. reflexivity.
  - vm_compute. reflexivity.
  - reflexivity.
  - reflexivity.
  - reflexivity.
  - exists w1. split; [exact Hrun|]. split; [exact Hcache|exact Hrow].
Defined.

(** *** Country codes that name a method of every object *)

(** X19.  The cache is a plain object, so a country code that names a
    property of [Object.prototype] reads as cached before anything was
    stored under it: the call fetches nothing, stores nothing, and shows the
    error row. *)
Theorem inherited_name_is_never_fetched
    (env : Env) (stateId : Z) (code : string) (w : World) (old : Rows) :
  tbody (dom w) !! "cities-tb" = Some old →
  code ∈ Object_prototype →
  citiesCache w !! code = None →
  ∃ w',
    filterCities env stateId code w = Returns tt w' [EConsoleError "Error loading cities"]
    ∧ citiesCache w' = citiesCache w
    ∧ tbody (dom w') !! "cities-tb" = Some ErrorLoadingCities.
Proof.
  intros Htb Hcode Hnone.
  set (w0 := set_dom (set_rows "cities-tb" LoadingCities (dom w)) w).
  assert (Hget : cache_get (citiesCache w0) code = VNative code).
  { unfold cache_get. cbn [w0 citiesCache set_dom]. rewrite Hnone.
    by rewrite (existsb_eqb_elem_of code Object_prototype Hcode). }
  assert (Hload : load_cities env stateId code w0
                  = Throws (Platform "TypeError") (with_state stateId w0) []).
  { rewrite load_cities_hit; rewrite Hget; done. }
  unfold filterCities. run. rewrite Htb. run. fold w0. rewrite Hload. run.
  eexists. split; [reflexivity|]. split; [reflexivity|].
  apply (set_rows_shown _ _ LoadingCities), (set_rows_shown _ _ old), Htb.
Qed.

Lemma inherited_name_is_never_fetched_witness :
  ∃ w',
    filterCities (mkEnv healthy_network true) 100 "constructor" drilled_down
      = Returns tt w' [EConsoleError "Error loading cities"]
    ∧ citiesCache w' = citiesCache drilled_down
    ∧ tbody (dom w') !! "cities-tb" = Some ErrorLoadingCities.
Proof.
  apply (inherited_name_is_never_fetched (mkEnv healthy_network true) 100 "constructor"
           drilled_down Authored).
  - vm_compute. reflexivity.
  - apply list_elem_of_In. cbn. tauto.
  - reflexivity.
Defined.

(** *** The statistics panel *)

Ltac stat_lookup :=
  unfold stat_of; cbn [dom set_dom]; cbv [String.append];
  rewrite !textContent_set_text;
  repeat (destruct (decide _) as [Heq|Hne]; [try discriminate Heq|try done]).

(** X20.  The statistics are written all at once or not at all.  When the
    database is open with its four collections, each figure that the page
    has shows the number of records of its collection, and the cities figure
    the fixed estimate; nothing but the page changes.  Otherwise the error
    is logged and the panel keeps what it showed.  The function returns in
    both cases. *)
Theorem statistics_are_all_or_nothing (w : World) :
  ∃ w' log,
    updateStatistics w = Returns tt w' log
    ∧ ((db w = true ∧ (∀ c, c ∈ COLLECTIONS → store_of w c ≠ None)
        ∧ log = EGetAll <$> COLLECTIONS
        ∧ behind_the_selection w' = behind_the_selection w
        ∧ currentSelections w' = currentSelections w
        ∧ (∀ c old, c ∈ COLLECTIONS → stat_of w c = Some old →
             stat_of w' c = Some (figure w c))
        ∧ (∀ old, stat_of w "cities" = Some old → stat_of w' "cities" = Some "~150k"))
       ∨ ((db w = false ∨ ∃ c, c ∈ COLLECTIONS ∧ store_of w c = None)
          ∧ w' = w
          ∧ last log = Some (EConsoleError "Error updating statistics:"))).
Proof.
  unfold updateStatistics, getAllFromStore, guard_db, objectStore, set_stat.
  destruct (db w) eqn:Hdb;
    [|run; rewrite Hdb; run; eexists _, _; split; [reflexivity|right];
      split; [by left|done]].
  assert (Hmissing : ∀ c, c ∈ COLLECTIONS → store_of w c = None →
            true = false ∨ ∃ c, c ∈ COLLECTIONS ∧ store_of w c = None).
  { intros c Hc Hnone. right. by exists c. }
  destruct (idb w) as [[version stores]|] eqn:Hidb.
  2:{ repeat (progress (run; rewrite ?Hdb, ?Hidb)).
      eexists _, _. split; [reflexivity|right]. split; [|done].
      apply (Hmissing "regions"); [set_solver|]. unfold store_of. by rewrite Hidb. }
  destruct (stores !! "regions") as [r|] eqn:H1.
  2:{ repeat (progress (run; rewrite ?Hdb, ?Hidb, ?H1)).
      eexists _, _. split; [reflexivity|right]. split; [|done].
      apply (Hmissing "regions"); [set_solver|]. unfold store_of. by rewrite Hidb. }
  destruct (stores !! "subregions") as [s|] eqn:H2.
  2:{ repeat (progress (run; rewrite ?Hdb, ?Hidb, ?H1, ?H2)).
      eexists _, _. split; [reflexivity|right]. split; [|done].
      apply (Hmissing "subregions"); [set_solver|]. unfold store_of. by rewrite Hidb. }
  destruct (stores !! "countries") as [c|] eqn:H3.
  2:{ repeat (progress (run; rewrite ?Hdb, ?Hidb, ?H1, ?H2, ?H3)).
      eexists _, _. split; [reflexivity|right]. split; [|done].
      apply (Hmissing "countries"); [set_solver|]. unfold store_of. by rewrite Hidb. }
  destruct (stores !! "states") as [t|] eqn:H4.
  2:{ repeat (progress (run; rewrite ?Hdb, ?Hidb, ?H1, ?H2, ?H3, ?H4)).
      eexists _, _. split; [reflexivity|right]. split; [|done].
      apply (Hmissing "states"); [set_solver|]. unfold store_of. by rewrite Hidb. }
  repeat (progress (run; rewrite ?Hdb, ?Hidb, ?H1, ?H2, ?H3, ?H4)).
  eexists _, _. split; [reflexivity|left]. split; [done|].
  assert (Hstore : ∀ name, store_of w name = stores !! name).
  { intros name. unfold store_of. by rewrite Hidb. }
  split.
  { intros name Hname. rewrite Hstore. apply list_elem_of_In in Hname.
    cbn [In COLLECTIONS] in Hname.
    destruct Hname as [<-|[<-|[<-|[<-|[]]]]]; congruence. }
  split; [reflexivity|]. split; [reflexivity|]. split; [reflexivity|]. split.
  - intros name old Hname Hold. apply list_elem_of_In in Hname.
    cbn [In COLLECTIONS] in Hname. unfold figure. rewrite Hstore.
    unfold stat_of in Hold. cbv [String.append] in Hold.
    destruct Hname as [<-|[<-|[<-|[<-|[]]]]]; stat_lookup;
      rewrite Hold; cbn [fmap option_fmap option_map];
      by rewrite ?H1, ?H2, ?H3, ?H4.
  - intros old Hold. unfold stat_of in Hold. cbv [String.append] in Hold.
    stat_lookup. by rewrite Hold.
Qed.
